(** * ServerActionCreator: the OpenAPI to server-action generator

    A shallow embedding of [src/ServerActionCreator.ts].

    The script reads an OpenAPI description with [yaml.load] and treats the
    parsed document as a value of type [any].  The embedding therefore works
    on untyped JavaScript data ([JValue]) and writes out, for every property
    access, test and string operation of the script, what JavaScript does on
    such a value.

    Scope of the runtime model:
    - a description is a finite tree of [null], booleans, numbers, strings,
      sequences and mappings.  A YAML alias to a node that contains the
      alias makes [yaml.load] return a cyclic object, which is no [JValue];
      timestamps and binary data, which [yaml.load] returns as [Date] and
      byte arrays, are left out as well;
    - text is ASCII.  Strings are sequences of 8-bit characters, and every
      character class the script tests ([\W], [[a-z]], [/], [{], [$]) is
      an ASCII one.  [toUpperCase], which the script applies to the name
      of the method, is the one operation whose result depends on what the
      other characters are; it is given for ASCII names, as the names of
      the HTTP methods are;
    - a number is given by the two things the script can observe of it:
      whether it is truthy, and the text that [ToString] prints;
    - [getProp] reads own properties, array and string indices and
      [length].  The members that a value inherits from the built-in
      prototypes (such as [constructor] and [toString]) are functions and
      not data of the description.  The methods that the script calls
      ([includes], [filter], [replace], ...) have definitions of their own;
      as values the script can reach inherited members in one place only,
      the computed read [current[part]] of [resolveRef].  [inherited] lists
      their names, and [own_walk] says that a walk does not meet one;
    - a call stack that grows without bound is modelled by fuel: [OutOfFuel]
      says that the given number of nested calls was not enough;
    - the file system is an oracle that says which calls of
      [fs.writeFileSync] succeed;
    - the generated unit is a text.  What a call of the generated function
      does is JavaScript of its own and is not modelled. *)

From Stdlib Require Import List String Ascii Bool Arith ZArith NArith Lia.
From Stdlib Require Import DecimalString Permutation Sorted.
Import ListNotations.

Local Open Scope list_scope.
Local Open Scope string_scope.

(** ** Outcomes of a computation *)

(** The exceptions of the script: on the data of the description every one
    is a [TypeError] (a property read on [undefined] or [null], or a call of
    something that is not a function); a write that the file system refuses
    is a [SystemError] (such as [ENOENT] for a file name that holds [/]). *)
Inductive error : Type :=
| TypeError
| SystemError.

Inductive result (A : Type) : Type :=
| Ok (a : A)
| Throw (e : error)
| OutOfFuel.

Arguments Ok {A} a.
Arguments Throw {A} e.
Arguments OutOfFuel {A}.

Definition bind {A B : Type} (m : result A) (k : A -> result B) : result B :=
  match m with
  | Ok a => k a
  | Throw e => Throw e
  | OutOfFuel => OutOfFuel
  end.

Notation "x <- m ;; k" := (bind m (fun x => k))
  (at level 61, m at next level, right associativity).

(** [Array.prototype.map] with a callback that may throw: elements are
    visited in order and the first failure aborts the loop. *)
Fixpoint mapM {A B : Type} (f : A -> result B) (l : list A) : result (list B) :=
  match l with
  | [] => Ok []
  | a :: l' =>
      b <- f a ;;
      bs <- mapM f l' ;;
      Ok (b :: bs)
  end.

(** ** Strings *)

Module Str.

Definition dquote : string := String (ascii_of_nat 34) EmptyString.
Definition newline : string := String (ascii_of_nat 10) EmptyString.

Fixpoint drop (n : nat) (s : string) : string :=
  match n, s with
  | O, _ => s
  | S n', String _ s' => drop n' s'
  | S _, EmptyString => EmptyString
  end.

(** Splits [s] around the first (leftmost) occurrence of [pat]. *)
Fixpoint split_first (pat s : string) : option (string * string) :=
  if prefix pat s then Some (EmptyString, drop (String.length pat) s)
  else
    match s with
    | EmptyString => None
    | String c s' =>
        match split_first pat s' with
        | Some (before, after) => Some (String c before, after)
        | None => None
        end
    end.

(** [s.includes(pat)] on strings. *)
Definition includes (s pat : string) : bool :=
  match split_first pat s with
  | Some _ => true
  | None => false
  end.

(** The replacement patterns that [String.prototype.replace] expands in
    its second argument when the first one is a string: [$$], [$&],
    [$`] and [$'].  There are no capture groups, so [$1] and [$<] stay
    literal. *)
Fixpoint expand (matched before after repl : string) : string :=
  match repl with
  | EmptyString => EmptyString
  | String c rest =>
      if Ascii.eqb c "$" then
        match rest with
        | String d rest' =>
            if Ascii.eqb d "$" then "$" ++ expand matched before after rest'
            else if Ascii.eqb d "&" then matched ++ expand matched before after rest'
            else if Ascii.eqb d "`" then before ++ expand matched before after rest'
            else if Ascii.eqb d "'" then after ++ expand matched before after rest'
            else String c (expand matched before after rest)
        | EmptyString => String c EmptyString
        end
      else String c (expand matched before after rest)
  end.

(** [s.replace(pat, repl)] with a string pattern: only the first
    occurrence is replaced. *)
Definition replace (pat repl s : string) : string :=
  match split_first pat s with
  | Some (before, after) => before ++ expand pat before after repl ++ after
  | None => s
  end.

(** [s.split('/')]: the pieces between the separators, empty ones kept. *)
Fixpoint split (sep : ascii) (s : string) : list string :=
  match s with
  | EmptyString => [EmptyString]
  | String c s' =>
      if Ascii.eqb c sep then EmptyString :: split sep s'
      else
        match split sep s' with
        | piece :: pieces => String c piece :: pieces
        | [] => [String c EmptyString]
        end
  end.

(** [pieces.join(sep)] on an array of strings. *)
Definition join (sep : string) (pieces : list string) : string :=
  String.concat sep pieces.

Definition in_range (lo hi : nat) (c : ascii) : bool :=
  Nat.leb lo (nat_of_ascii c) && Nat.leb (nat_of_ascii c) hi.

Definition is_lower (c : ascii) : bool := in_range 97 122 c.
Definition is_upper (c : ascii) : bool := in_range 65 90 c.
Definition is_digit (c : ascii) : bool := in_range 48 57 c.

(** The class [\w]: [[A-Za-z0-9_]]. *)
Definition is_word (c : ascii) : bool :=
  is_lower c || is_upper c || is_digit c || Ascii.eqb c "_".

Definition upper (c : ascii) : ascii :=
  if is_lower c then ascii_of_nat (nat_of_ascii c - 32) else c.

(** [s.toUpperCase()] for a text [s] of ASCII characters: the letters [a]
    to [z] become capitals.  JavaScript maps other letters as well. *)
Fixpoint toUpperCase (s : string) : string :=
  match s with
  | EmptyString => EmptyString
  | String c s' => String (upper c) (toUpperCase s')
  end.

(** [s.replace(/\W+/g, '_')]: every maximal run of non-word characters
    becomes one underscore.  [in_run] says that the character before the
    current one belongs to a run whose underscore is already written. *)
Fixpoint replace_nonword_from (in_run : bool) (s : string) : string :=
  match s with
  | EmptyString => EmptyString
  | String c s' =>
      if is_word c then String c (replace_nonword_from false s')
      else if in_run then replace_nonword_from true s'
      else String "_" (replace_nonword_from true s')
  end.

Definition replace_nonword (s : string) : string :=
  replace_nonword_from false s.

(** [s.replace(/_([a-z])/g, (_, c) => c.toUpperCase())]: matches are
    found from left to right and do not overlap. *)
Fixpoint camel (s : string) : string :=
  match s with
  | EmptyString => EmptyString
  | String c EmptyString => String c EmptyString
  | String c (String d s'' as s') =>
      if Ascii.eqb c "_" && is_lower d then String (upper d) (camel s'')
      else String c (camel s')
  end.

End Str.

(** ** JavaScript data *)

(** What [yaml.load] returns, together with [undefined], the value of a
    property that is not there.  The entries of [JObj] are in creation
    order, which is the order of the keys in the description file.  A
    number [JNum nonzero text] is any JavaScript number, by what the script
    observes of it: [nonzero] says that it is neither [0] nor [NaN], and
    [text] is its decimal form as [ToString] prints it ([1.5], [1e+21],
    [Infinity]). *)
#[local] Unset Elimination Schemes.
Inductive JValue : Type :=
| JUndefined
| JNull
| JBool (b : bool)
| JNum (nonzero : bool) (text : string)
| JStr (s : string)
| JArr (elems : list JValue)
| JObj (entries : list (string * JValue)).
#[local] Set Elimination Schemes.

Module JS.

(** [ToBoolean]. *)
Definition truthy (v : JValue) : bool :=
  match v with
  | JUndefined | JNull => false
  | JBool b => b
  | JNum nonzero _ => nonzero
  | JStr s => negb (String.eqb s EmptyString)
  | JArr _ | JObj _ => true
  end.

(** [v === s] for a string literal [s]. *)
Definition is_str (v : JValue) (s : string) : bool :=
  match v with
  | JStr x => String.eqb x s
  | _ => false
  end.

(** [a || b]. *)
Definition or_else (a b : JValue) : JValue :=
  if truthy a then a else b.

Definition string_of_Z (z : Z) : string :=
  NilZero.string_of_int (Z.to_int z).

Definition string_of_nat (n : nat) : string :=
  NilZero.string_of_uint (Nat.to_uint n).

(** The number [z], for an integer that JavaScript holds exactly and
    prints digit by digit (below [2^53] in magnitude). *)
Definition int (z : Z) : JValue :=
  JNum (negb (Z.eqb z 0)) (string_of_Z z).

(** The [length] of an array or string. *)
Definition count (n : nat) : JValue :=
  JNum (negb (Nat.eqb n 0)) (string_of_nat n).

(** [ToString], as a template literal applies it. *)
Fixpoint toStr (v : JValue) : string :=
  match v with
  | JUndefined => "undefined"
  | JNull => "null"
  | JBool true => "true"
  | JBool false => "false"
  | JNum _ text => text
  | JStr s => s
  | JArr elems =>
      Str.join ","
        (map (fun e => match e with
                       | JUndefined | JNull => EmptyString
                       | _ => toStr e
                       end) elems)
  | JObj _ => "[object Object]"
  end.

(** [elems.join(sep)]: [undefined] and [null] elements print as the empty
    string. *)
Definition join (sep : string) (elems : list JValue) : string :=
  Str.join sep
    (map (fun e => match e with
                   | JUndefined | JNull => EmptyString
                   | _ => toStr e
                   end) elems).

Fixpoint digits (s : string) (acc : N) : option N :=
  match s with
  | EmptyString => Some acc
  | String c s' =>
      if Str.is_digit c
      then digits s' (10 * acc + (N_of_ascii c - 48))%N
      else None
  end.

(** A property key is an array index when it is the canonical decimal
    form of an integer between 0 and 2^32 - 2. *)
Definition array_index (k : string) : option N :=
  match k with
  | EmptyString => None
  | String c s' =>
      if Ascii.eqb c "0" then
        match s' with
        | EmptyString => Some 0%N
        | String _ _ => None
        end
      else
        match digits k 0%N with
        | Some n => if (n <=? 4294967294)%N then Some n else None
        | None => None
        end
  end.

(** The own property [k] of an object, [undefined] when there is none. *)
Fixpoint own (entries : list (string * JValue)) (k : string) : JValue :=
  match entries with
  | [] => JUndefined
  | (k', v) :: rest => if String.eqb k' k then v else own rest k
  end.

(** [v[k]] and [v.k], for a key [k] that names no inherited member of [v]
    (see [inherited] below): the own property, [undefined] when there is
    none.  The keys that the script reads by name ([$ref], [type],
    [items], [properties], [required], [in], [name], [schema], [content],
    [paths], ...) are such keys for every value. *)
Definition getProp (v : JValue) (k : string) : result JValue :=
  match v with
  | JUndefined | JNull => Throw TypeError
  | JBool _ | JNum _ _ => Ok JUndefined
  | JStr s =>
      match array_index k with
      | Some i =>
          match String.get (N.to_nat i) s with
          | Some c => Ok (JStr (String c EmptyString))
          | None => Ok JUndefined
          end
      | None =>
          if String.eqb k "length" then Ok (count (String.length s))
          else Ok JUndefined
      end
  | JArr elems =>
      match array_index k with
      | Some i => Ok (nth (N.to_nat i) elems JUndefined)
      | None =>
          if String.eqb k "length" then Ok (count (List.length elems))
          else Ok JUndefined
      end
  | JObj entries => Ok (own entries k)
  end.

(** The names of the members that the values of a description inherit
    from [Object.prototype], [Array.prototype], [String.prototype],
    [Number.prototype] and [Boolean.prototype] (ECMAScript 2025 with the
    legacy members of its Annex B). *)
Definition object_members : list string :=
  ["constructor"; "hasOwnProperty"; "isPrototypeOf"; "propertyIsEnumerable";
   "toLocaleString"; "toString"; "valueOf"; "__proto__"; "__defineGetter__";
   "__defineSetter__"; "__lookupGetter__"; "__lookupSetter__"].

Definition array_members : list string :=
  ["at"; "concat"; "copyWithin"; "entries"; "every"; "fill"; "filter"; "find";
   "findIndex"; "findLast"; "findLastIndex"; "flat"; "flatMap"; "forEach";
   "includes"; "indexOf"; "join"; "keys"; "lastIndexOf"; "map"; "pop"; "push";
   "reduce"; "reduceRight"; "reverse"; "shift"; "slice"; "some"; "sort";
   "splice"; "toReversed"; "toSorted"; "toSpliced"; "unshift"; "values"; "with"].

Definition string_members : list string :=
  ["anchor"; "at"; "big"; "blink"; "bold"; "charAt"; "charCodeAt"; "codePointAt";
   "concat"; "endsWith"; "fixed"; "fontcolor"; "fontsize"; "includes"; "indexOf";
   "isWellFormed"; "italics"; "lastIndexOf"; "link"; "localeCompare"; "match";
   "matchAll"; "normalize"; "padEnd"; "padStart"; "repeat"; "replace";
   "replaceAll"; "search"; "slice"; "small"; "split"; "startsWith"; "strike";
   "sub"; "substr"; "substring"; "sup"; "toLocaleLowerCase"; "toLocaleUpperCase";
   "toLowerCase"; "toUpperCase"; "toWellFormed"; "trim"; "trimEnd"; "trimLeft";
   "trimRight"; "trimStart"].

Definition number_members : list string :=
  ["toExponential"; "toFixed"; "toPrecision"].

Definition named (k : string) (names : list string) : bool :=
  existsb (String.eqb k) names.

(** [k] names a member that [v] inherits.  For such a key [v[k]] is a
    function of the runtime (or the prototype itself), unless [v] has an
    own property [k], which comes first. *)
Definition inherited (v : JValue) (k : string) : bool :=
  match v with
  | JUndefined | JNull => false
  | JBool _ => named k object_members
  | JNum _ _ => named k number_members || named k object_members
  | JStr _ => named k string_members || named k object_members
  | JArr _ => named k array_members || named k object_members
  | JObj _ => named k object_members
  end.

(** The read [v[k]] finds an own property, or [k] names no inherited
    member of [v]: then [getProp v k] is what JavaScript returns. *)
Definition own_read (v : JValue) (k : string) : bool :=
  negb (inherited v k)
  || match getProp v k with
     | Ok JUndefined => false
     | _ => true
     end.

(** [v?.[k]] and [v?.k]: [undefined] on [undefined] and [null]. *)
Definition getPropOpt (v : JValue) (k : string) : JValue :=
  match getProp v k with
  | Ok x => x
  | _ => JUndefined
  end.

Definition is_index_key (kv : string * JValue) : bool :=
  match array_index (fst kv) with
  | Some _ => true
  | None => false
  end.

Definition index_of_key (kv : string * JValue) : N :=
  match array_index (fst kv) with
  | Some i => i
  | None => 0%N
  end.

Fixpoint insert_by_index (kv : string * JValue) (l : list (string * JValue))
  : list (string * JValue) :=
  match l with
  | [] => [kv]
  | kv' :: l' =>
      if (index_of_key kv <=? index_of_key kv')%N then kv :: l
      else kv' :: insert_by_index kv l'
  end.

Definition sort_by_index (l : list (string * JValue)) : list (string * JValue) :=
  fold_right insert_by_index [] l.

(** The order in which JavaScript enumerates the own properties of an
    object: the keys that are array indices first, in ascending numeric
    order, then the other keys in creation order. *)
Definition own_entries (entries : list (string * JValue)) : list (string * JValue) :=
  (sort_by_index (filter is_index_key entries)
   ++ filter (fun kv => negb (is_index_key kv)) entries)%list.

Fixpoint number_from {A : Type} (i : nat) (l : list A) : list (string * A) :=
  match l with
  | [] => []
  | a :: l' => (string_of_nat i, a) :: number_from (S i) l'
  end.

Fixpoint chars (s : string) : list JValue :=
  match s with
  | EmptyString => []
  | String c s' => JStr (String c EmptyString) :: chars s'
  end.

(** [Object.entries(v)]. *)
Definition entries (v : JValue) : result (list (string * JValue)) :=
  match v with
  | JUndefined | JNull => Throw TypeError
  | JBool _ | JNum _ _ => Ok []
  | JStr s => Ok (number_from 0 (chars s))
  | JArr elems => Ok (number_from 0 elems)
  | JObj kvs => Ok (own_entries kvs)
  end.

(** [required.includes(key)] for a string [key], by the kind of value
    [required] is: an array compares its elements with [===], a string
    looks for a substring, and anything else has no such method. *)
Definition includes (required : JValue) (key : string) : result bool :=
  match required with
  | JArr elems => Ok (existsb (fun e => is_str e key) elems)
  | JStr s => Ok (Str.includes s key)
  | _ => Throw TypeError
  end.

End JS.

Import JS.

(** ** The reference resolver (lines 57-64) *)

(** The loop [for (const part of parts) current = current[part]]. *)
Fixpoint walk (current : JValue) (parts : list string) : result JValue :=
  match parts with
  | [] => Ok current
  | part :: rest =>
      next <- getProp current part ;;
      walk next rest
  end.

(** Every read of the loop is an [own_read]: the loop does not pass
    through a member of a built-in prototype. *)
Fixpoint own_walk (current : JValue) (parts : list string) : bool :=
  match parts with
  | [] => true
  | part :: rest =>
      own_read current part
      && match getProp current part with
         | Ok next => own_walk next rest
         | _ => true
         end
  end.

Definition ref_parts (ref : string) : list string :=
  Str.split "/" (Str.replace "#/" EmptyString ref).

Definition resolveRef (ref : string) (doc : JValue) : result JValue :=
  walk doc (ref_parts ref).

(** ** The type synthesizer (lines 67-96) *)

(** One member of a record type: [`${key}${isRequired ? '' : '?'}: ${type}`]. *)
Definition member (key : string) (isRequired : bool) (type : string) : string :=
  key ++ (if isRequired then EmptyString else "?") ++ ": " ++ type.

(** [fuel] bounds the nesting of the calls: a call with fuel [S n] may make
    calls with fuel [n]. *)
Fixpoint schemaToTS (fuel : nat) (schema doc : JValue) : result string :=
  match fuel with
  | O => OutOfFuel
  | S n =>
      if negb (truthy schema) then Ok "any"
      else
        ref <- getProp schema "$ref" ;;
        if truthy ref then
          match ref with
          | JStr r =>
              resolved <- resolveRef r doc ;;
              schemaToTS n resolved doc
          | _ => Throw TypeError (* [ref.replace] is not a function *)
          end
        else
          type <- getProp schema "type" ;;
          if is_str type "string" then Ok "string"
          else if is_str type "integer" || is_str type "number" then Ok "number"
          else if is_str type "boolean" then Ok "boolean"
          else if is_str type "array" then
            items <- getProp schema "items" ;;
            elem <- schemaToTS n items doc ;;
            Ok ("Array<" ++ elem ++ ">")
          else if is_str type "object" then
            properties <- getProp schema "properties" ;;
            if negb (truthy properties) then Ok "Record<string, any>"
            else
              declared <- getProp schema "required" ;;
              let required := or_else declared (JArr []) in
              kvs <- entries properties ;;
              props <- mapM (fun kv =>
                               isRequired <- includes required (fst kv) ;;
                               type <- schemaToTS n (snd kv) doc ;;
                               Ok (member (fst kv) isRequired type)) kvs ;;
              Ok ("{" ++ Str.join "; " props ++ "}")
          else Ok "any"
  end.

(** ** The operation compiler (lines 99-178) *)

Definition API_URL : string := "${process.env.API_URL}".

(** [name.replace(...)] is a method of strings only. *)
Definition camelCase (name : JValue) : result string :=
  match name with
  | JStr s => Ok (Str.camel s)
  | _ => Throw TypeError
  end.

(** [xs.filter(...)], [xs.map(...)] and [xs.forEach(...)] are methods of
    arrays only. *)
Definition as_array (v : JValue) : result (list JValue) :=
  match v with
  | JArr elems => Ok elems
  | _ => Throw TypeError
  end.

(** [parameters.filter((p) => p.in === location)]. *)
Fixpoint filter_in (location : string) (parameters : list JValue)
  : result (list JValue) :=
  match parameters with
  | [] => Ok []
  | p :: rest =>
      place <- getProp p "in" ;;
      kept <- filter_in location rest ;;
      Ok (if is_str place location then p :: kept else kept)
  end.

(** [url.replace(`{${p.name}}`, `\${${p.name}}`)] for one parameter. *)
Definition substitute (url : string) (p : JValue) : result string :=
  name <- getProp p "name" ;;
  Ok (Str.replace ("{" ++ toStr name ++ "}") ("${" ++ toStr name ++ "}") url).

(** The [forEach] loop of lines 142-144. *)
Fixpoint substitute_all (url : string) (pathParams : list JValue) : result string :=
  match pathParams with
  | [] => Ok url
  | p :: rest =>
      url' <- substitute url p ;;
      substitute_all url' rest
  end.

Definition nonempty (s : string) : bool := negb (String.eqb s EmptyString).

Definition queryHandling_text : string :=
  "const queryStr = new URLSearchParams(Object.entries(query).filter(([_, v]) => v !== undefined).map(([k, v]) => [k, String(v)])).toString(); url += queryStr ? `?${queryStr}` : "
  ++ Str.dquote ++ Str.dquote ++ ";".

Definition bodyHandling_text : string :=
  "const options: RequestInit = { headers: { " ++ Str.dquote ++ "Content-Type"
  ++ Str.dquote ++ ": " ++ Str.dquote ++ "application/json" ++ Str.dquote
  ++ " }, body: JSON.stringify(body) };".

Section Generator.

(** The globals of the script: the parsed description, and the bound on
    the nesting of [schemaToTS] that stands for the call stack. *)
Variable doc : JValue.
Variable fuel : nat.

(** [functionName], lines 100-101. *)
Definition functionName (route method : string) (operation : JValue)
  : result string :=
  operationId <- getProp operation "operationId" ;;
  let functionName :=
    or_else operationId (JStr (method ++ Str.replace_nonword route)) in
  camelCase functionName.

(** [fileName], lines 184-185. *)
Definition fileName (route method : string) (operation : JValue)
  : result string :=
  operationId <- getProp operation "operationId" ;;
  let fileName :=
    or_else operationId (JStr (method ++ Str.replace_nonword route)) in
  camelCase fileName.

(** [parameters], line 103. *)
Definition parameters_of (operation : JValue) : result (list JValue) :=
  declared <- getProp operation "parameters" ;;
  as_array (or_else declared (JArr [])).

(** [responseSchema], line 108. *)
Definition responseSchema_of (operation : JValue) : result JValue :=
  responses <- getProp operation "responses" ;;
  Ok (getPropOpt
        (getPropOpt (getPropOpt (getPropOpt responses "200") "content")
           "application/json") "schema").

(** One element of [pathParamTypes], lines 111-113. *)
Definition pathParamType (p : JValue) : result string :=
  name <- getProp p "name" ;;
  schema <- getProp p "schema" ;;
  type <- schemaToTS fuel schema doc ;;
  Ok (toStr name ++ ": " ++ type).

(** One element of [queryParamTypes], lines 115-117. *)
Definition queryParamType (p : JValue) : result string :=
  name <- getProp p "name" ;;
  required <- getProp p "required" ;;
  schema <- getProp p "schema" ;;
  type <- schemaToTS fuel schema doc ;;
  Ok (toStr name ++ (if truthy required then EmptyString else "?") ++ ": " ++ type).

Definition pathParamTypes_of (pathParams : list JValue) : result string :=
  types <- mapM pathParamType pathParams ;;
  Ok (Str.join "; " types).

Definition queryParamTypes_of (queryParams : list JValue) : result string :=
  types <- mapM queryParamType queryParams ;;
  Ok (Str.join "; " types).

(** [requestBodyType], lines 119-121. *)
Definition requestBodyType_of (requestBody : JValue) : result string :=
  if truthy requestBody then
    content <- getProp requestBody "content" ;;
    json <- getProp content "application/json" ;;
    schemaToTS fuel (getPropOpt json "schema") doc
  else Ok "undefined".

(** [responseType], lines 123-125. *)
Definition responseType_of (responseSchema : JValue) : result string :=
  if truthy responseSchema then schemaToTS fuel responseSchema doc
  else Ok "any".

(** [paramSignature], lines 128-138. *)
Definition paramSignature_of (pathParams queryParams : list JValue)
  (requestBody : JValue) (pathParamTypes queryParamTypes requestBodyType : string)
  : result string :=
  names <- mapM (fun p => getProp p "name") pathParams ;;
  let sig0 := EmptyString in
  let sig1 :=
    if negb (Nat.eqb (List.length pathParams) 0)
    then sig0 ++ "{ " ++ JS.join ", " names ++ " }: { " ++ pathParamTypes ++ " }"
    else sig0 in
  let sig2 :=
    if negb (Nat.eqb (List.length queryParams) 0)
    then sig1 ++ (if nonempty sig1
                  then ", query: { " ++ queryParamTypes ++ " }"
                  else "query: { " ++ queryParamTypes ++ " }")
    else sig1 in
  let sig3 :=
    if truthy requestBody
    then sig2 ++ (if nonempty sig2
                  then ", body: " ++ requestBodyType
                  else "body: " ++ requestBodyType)
    else sig2 in
  Ok (if nonempty sig3 then sig3 else "_?: void").

(** [url], lines 141-144. *)
Definition url_of (route : string) (pathParams : list JValue) : result string :=
  substitute_all (API_URL ++ route) pathParams.

(** [queryHandling] and [bodyHandling], lines 146-152. *)
Definition queryHandling_of (queryParams : list JValue) : string :=
  if negb (Nat.eqb (List.length queryParams) 0) then queryHandling_text else EmptyString.

Definition bodyHandling_of (requestBody : JValue) : string :=
  if truthy requestBody then bodyHandling_text
  else "const options: RequestInit = {};".

(** The first line of the function, line 160. *)
Definition header (functionName paramSignature responseType : string) : string :=
  "export async function " ++ functionName ++ "(" ++ paramSignature
  ++ "): Promise<" ++ responseType ++ " | null> {".

(** The body of the function, lines 161-177. *)
Definition body (method url queryHandling bodyHandling : string) : list string :=
  [ "  try {";
    "    let url = `" ++ url ++ "`;";
    "    " ++ queryHandling;
    "    " ++ bodyHandling;
    "    const res = await fetch(url, options);";
    "    ";
    "    if (!res.ok) {";
    "      console.error(`API error: " ++ Str.toUpperCase method
      ++ " ${url} ${res.status}`);";
    "      return null;";
    "    }";
    "    ";
    "    return await res.json();";
    "  } catch (error) {";
    "    console.error(error);";
    "    return null;";
    "  }";
    "}" ].

(** The template of lines 154-177. *)
Definition unit_text (summary description functionName paramSignature
  responseType method url queryHandling bodyHandling : string) : string :=
  Str.join Str.newline
    ("'use server';"
     :: EmptyString
     :: "/**"
     :: (" * " ++ summary)
     :: (" * " ++ description)
     :: " */"
     :: header functionName paramSignature responseType
     :: body method url queryHandling bodyHandling).

Definition generateFunction (route method : string) (operation : JValue)
  : result string :=
  functionName <- functionName route method operation ;;
  parameters <- parameters_of operation ;;
  pathParams <- filter_in "path" parameters ;;
  queryParams <- filter_in "query" parameters ;;
  requestBody <- getProp operation "requestBody" ;;
  responseSchema <- responseSchema_of operation ;;
  pathParamTypes <- pathParamTypes_of pathParams ;;
  queryParamTypes <- queryParamTypes_of queryParams ;;
  requestBodyType <- requestBodyType_of requestBody ;;
  responseType <- responseType_of responseSchema ;;
  paramSignature <- paramSignature_of pathParams queryParams requestBody
                      pathParamTypes queryParamTypes requestBodyType ;;
  url <- url_of route pathParams ;;
  let queryHandling := queryHandling_of queryParams in
  let bodyHandling := bodyHandling_of requestBody in
  summary <- getProp operation "summary" ;;
  description <- getProp operation "description" ;;
  Ok (unit_text (toStr (or_else summary (JStr EmptyString)))
        (toStr (or_else description (JStr EmptyString)))
        functionName paramSignature responseType method url
        queryHandling bodyHandling).

(** The emission driver, lines 183-186, for one route and method: the
    file name (without the directory) and its content. *)
Definition emit (route method : string) (operation : JValue)
  : result (string * string) :=
  functionCode <- generateFunction route method operation ;;
  fileName <- fileName route method operation ;;
  Ok (fileName ++ ".ts", functionCode).

(** *** The emission driver (lines 54 and 181-188)

    [fs.writeFileSync] is a call into the file system, which accepts or
    refuses it.  [accepts written file] says that the write of [file]
    succeeds after the writes [written] of this run; [file] is the name
    handed to [path.join(OUTPUT_DIR, ...)] with the text.  The loops are
    modelled by the writes they make, in order.  A failure, of the
    generator or of a write, ends them; the writes made before it have
    happened. *)
Variable accepts : list (string * string) -> string * string -> bool.

(** The inner loop, lines 182-187, after the writes [done]. *)
Fixpoint emit_methods (done : list (string * string)) (route : string)
  (methods : list (string * JValue)) : list (string * string) * result unit :=
  match methods with
  | [] => ([], Ok tt)
  | (method, operation) :: rest =>
      match emit route method operation with
      | Ok file =>
          if accepts done file then
            let (written, outcome) := emit_methods (app done [file]) route rest in
            (file :: written, outcome)
          else ([], Throw SystemError)
      | Throw e => ([], Throw e)
      | OutOfFuel => ([], OutOfFuel)
      end
  end.

(** The outer loop, lines 181-188, after the writes [done]. *)
Fixpoint emit_routes (done : list (string * string))
  (paths : list (string * JValue)) : list (string * string) * result unit :=
  match paths with
  | [] => ([], Ok tt)
  | (route, methods) :: rest =>
      match entries methods with
      | Ok operations =>
          match emit_methods done route operations with
          | (written, Ok _) =>
              let (written', outcome) := emit_routes (app done written) rest in
              (app written written', outcome)
          | failed => failed
          end
      | Throw e => ([], Throw e)
      | OutOfFuel => ([], OutOfFuel)
      end
  end.

(** The script from line 54 on: [paths = doc.paths || {}], then the
    loops. *)
Definition script : list (string * string) * result unit :=
  match getProp doc "paths" with
  | Ok declared =>
      match entries (or_else declared (JObj [])) with
      | Ok paths => emit_routes [] paths
      | Throw e => ([], Throw e)
      | OutOfFuel => ([], OutOfFuel)
      end
  | Throw e => ([], Throw e)
  | OutOfFuel => ([], OutOfFuel)
  end.

End Generator.

(** ** Statements *)

(** Synthesis of [schema] finishes with the outcome [r], a type or an
    exception. *)
Definition yields (schema doc : JValue) (r : result string) : Prop :=
  r <> OutOfFuel /\ exists fuel, schemaToTS fuel schema doc = r.

(** The first value under the key [k], as [own] finds it. *)
Fixpoint lookup {A : Type} (none : A) (l : list (string * A)) (k : string) : A :=
  match l with
  | [] => none
  | (k', a) :: rest => if String.eqb k' k then a else lookup none rest k
  end.

(** The values that have a method [includes]. *)
Definition has_includes (required : JValue) : bool :=
  match required with
  | JArr _ | JStr _ => true
  | _ => false
  end.

(** The references that synthesis of [schema] comes to without resolving
    one, by the keys it reads: the [$ref] of the node itself when it is a
    truthy string; else those of the element schema under [items] when
    the type is [array]; else those of the schemas in [properties] when
    the type is [object], unless the test of [required] throws before a
    property is synthesized.  References under other keys are never
    followed. *)
Fixpoint followed (schema : JValue) : list string :=
  match schema with
  | JObj kvs =>
      let ref := own kvs "$ref" in
      if truthy ref then
        match ref with
        | JStr r => [r]
        | _ => []
        end
      else
        let type := own kvs "type" in
        if is_str type "array" then
          lookup [] (map (fun kv => (fst kv, followed (snd kv))) kvs) "items"
        else if is_str type "object" then
          if truthy (own kvs "properties")
             && has_includes (or_else (own kvs "required") (JArr []))
          then
            lookup []
              (map (fun kv =>
                      (fst kv,
                       match snd kv with
                       | JObj props => flat_map (fun p => followed (snd p)) props
                       | JArr elems => flat_map followed elems
                       | _ => []
                       end)) kvs) "properties"
          else []
        else []
  | _ => []
  end.

(** The references followed in the schemas of a property map. *)
Definition followed_in (properties : JValue) : list string :=
  match properties with
  | JObj props => flat_map (fun p => followed (snd p)) props
  | JArr elems => flat_map followed elems
  | _ => []
  end.

Definition in_scope (scope : list string) (r : string) : bool :=
  existsb (String.eqb r) scope.

(** [rank] orders the references of [scope]: the node that a reference of
    [scope] resolves to follows references of [scope] only, each of a
    lower rank.  No such order exists for a reference that leads back to
    itself. *)
Definition ranked (rank : string -> nat) (doc : JValue) (scope : list string)
  : bool :=
  forallb
    (fun r =>
       match resolveRef r doc with
       | Ok target =>
           forallb (fun r' => in_scope scope r' && Nat.ltb (rank r') (rank r))
             (followed target)
       | _ => true
       end)
    scope.

(** The statements of the specification about one generated unit. *)
Module Spec.

(** A member of the path-parameter group: the name and its synthesized
    type, with no optional marker. *)
Definition path_member (doc : JValue) (fuel : nat) (p : JValue) (text : string)
  : Prop :=
  exists name schema type,
    getProp p "name" = Ok name /\ getProp p "schema" = Ok schema
    /\ schemaToTS fuel schema doc = Ok type
    /\ text = toStr name ++ ": " ++ type.

(** A member of the [query] record: optional unless the parameter is
    marked required. *)
Definition query_member (doc : JValue) (fuel : nat) (p : JValue) (text : string)
  : Prop :=
  exists name required schema type,
    getProp p "name" = Ok name /\ getProp p "required" = Ok required
    /\ getProp p "schema" = Ok schema
    /\ schemaToTS fuel schema doc = Ok type
    /\ text = toStr name ++ (if truthy required then EmptyString else "?") ++ ": " ++ type.

Definition located (location : string) (p : JValue) : bool :=
  is_str (getPropOpt p "in") location.

Definition path_group (names : list JValue) (members : list string) : string :=
  "{ " ++ JS.join ", " names ++ " }: { " ++ Str.join "; " members ++ " }".

Definition query_param (members : list string) : string :=
  "query: { " ++ Str.join "; " members ++ " }".

Definition body_param (type : string) : string := "body: " ++ type.

(** The type of a declared request body: the synthesized type of the
    schema of its JSON content. *)
Definition body_type (doc : JValue) (fuel : nat) (requestBody : JValue)
  (type : string) : Prop :=
  exists content json,
    getProp requestBody "content" = Ok content
    /\ getProp content "application/json" = Ok json
    /\ schemaToTS fuel (getPropOpt json "schema") doc = Ok type.

(** The JSON schema of the response [200]. *)
Definition response_schema (responses : JValue) : JValue :=
  getPropOpt (getPropOpt (getPropOpt (getPropOpt responses "200") "content")
                "application/json") "schema".

(** The declared result: the synthesized type of that schema, or [any]
    when there is none. *)
Definition response_type (doc : JValue) (fuel : nat) (responses : JValue)
  (type : string) : Prop :=
  if truthy (response_schema responses)
  then schemaToTS fuel (response_schema responses) doc = Ok type
  else type = "any".

(** A line of the documentation comment: the declared text, or nothing
    when none is declared. *)
Definition doc_line (declared : JValue) : string :=
  toStr (or_else declared (JStr EmptyString)).

(** The lines of a unit down to the first line of the function. *)
Definition opening (summary description name signature result : string)
  : list string :=
  [ "'use server';";
    EmptyString;
    "/**";
    " * " ++ summary;
    " * " ++ description;
    " */";
    "export async function " ++ name ++ "(" ++ signature ++ "): Promise<"
    ++ result ++ " | null> {" ].

(** [node] has no member [part], own or inherited. *)
Definition absent (node : JValue) (part : string) : Prop :=
  getProp node part = Ok JUndefined /\ inherited node part = false.

Definition when (present : bool) (part : string) : list string :=
  if present then [part] else [].

Definition exist (params : list JValue) : bool :=
  match params with
  | [] => false
  | _ :: _ => true
  end.

(** The parts of the signature that apply, in their fixed order. *)
Definition signature_parts (pathParams queryParams : list JValue)
  (requestBody : JValue) (names : list JValue) (pathMembers queryMembers : list string)
  (bodyType : string) : list string :=
  (when (exist pathParams) (path_group names pathMembers)
   ++ when (exist queryParams) (query_param queryMembers)
   ++ when (truthy requestBody) (body_param bodyType))%list.

(** The comma-join of the parts, or the placeholder when there is none. *)
Definition signature (parts : list string) : string :=
  match parts with
  | [] => "_?: void"
  | _ :: _ => Str.join ", " parts
  end.

(** The naming rule, in the words of the specification. *)

Fixpoint all_nonword (s : string) : bool :=
  match s with
  | EmptyString => true
  | String c s' => negb (Str.is_word c) && all_nonword s'
  end.

(** The text is empty or begins with a word character: a run of non-word
    characters that ends here is maximal. *)
Definition starts_word (s : string) : bool :=
  match s with
  | EmptyString => true
  | String c _ => Str.is_word c
  end.

Definition starts_lower (s : string) : bool :=
  match s with
  | EmptyString => false
  | String c _ => Str.is_lower c
  end.

(** [collapsed s t]: [t] is [s] with every maximal run of non-word
    characters collapsed to one underscore. *)
Inductive collapsed : string -> string -> Prop :=
| collapsed_end : collapsed EmptyString EmptyString
| collapsed_word (c : ascii) (s t : string) :
    Str.is_word c = true -> collapsed s t ->
    collapsed (String c s) (String c t)
| collapsed_run (run s t : string) :
    run <> EmptyString -> all_nonword run = true -> starts_word s = true ->
    collapsed s t ->
    collapsed (run ++ s) (String "_" t).

(** [folded s t]: reading [s] from the left, every underscore followed by
    a lower-case letter is replaced, together with that letter, by the
    capital letter; everything else is kept. *)
Inductive folded : string -> string -> Prop :=
| folded_end : folded EmptyString EmptyString
| folded_pair (c : ascii) (s t : string) :
    Str.is_lower c = true -> folded s t ->
    folded (String "_" (String c s)) (String (Str.upper c) t)
| folded_keep (c : ascii) (s t : string) :
    Ascii.eqb c "_" && starts_lower s = false -> folded s t ->
    folded (String c s) (String c t).

(** The fold as the specification words it, for every letter after an
    underscore and not only the lower-case ones. *)
Fixpoint fold_letter_pairs (s : string) : string :=
  match s with
  | EmptyString => EmptyString
  | String c EmptyString => String c EmptyString
  | String c (String d s'' as s') =>
      if Ascii.eqb c "_" && (Str.is_lower d || Str.is_upper d)
      then String (Str.upper d) (fold_letter_pairs s'')
      else String c (fold_letter_pairs s')
  end.

(** A member of a record type: the property name, the optional marker
    exactly when the name is not among the required ones, and the type. *)
Definition record_member (required : list JValue) (property : string * JValue * string)
  (text : string) : Prop :=
  let '(key, _, type) := property in
  (In (JStr key) required /\ text = key ++ ": " ++ type)
  \/ (~ In (JStr key) required /\ text = key ++ "?: " ++ type).

Definition by_index (a b : string * JValue) : Prop :=
  (index_of_key a <= index_of_key b)%N.

Definition not_index_key (kv : string * JValue) : bool := negb (is_index_key kv).

End Spec.

(** ** Sample descriptions *)

Module Sample.

Definition ref_to (r : string) : JValue := JObj [("$ref", JStr r)].

Definition of_type (t : string) : JValue := JObj [("type", JStr t)].

(** A linked node: the property [next] refers to the enclosing schema. *)
Definition node : JValue :=
  JObj [("type", JStr "object");
        ("properties",
          JObj [("value", of_type "string");
                ("next", ref_to "#/components/schemas/Node")])].

Definition node_doc : JValue :=
  JObj [("components", JObj [("schemas", JObj [("Node", node)])])].

Definition tags : JValue :=
  JObj [("type", JStr "array"); ("items", ref_to "#/components/schemas/Tag")].

Definition pet : JValue :=
  JObj [("type", JStr "object");
        ("properties",
          JObj [("name", of_type "string");
                ("age", of_type "integer");
                ("tags", ref_to "#/components/schemas/Tags")]);
        ("required", JArr [JStr "name"])].

(** [GET /pets/{petId}?limit=...] with a request body. *)
Definition path_param (name type : string) : JValue :=
  JObj [("name", JStr name); ("in", JStr "path"); ("required", JBool true);
        ("schema", of_type type)].

Definition query_param (name type : string) (required : bool) : JValue :=
  JObj [("name", JStr name); ("in", JStr "query"); ("required", JBool required);
        ("schema", of_type type)].

Definition json_content (schema : JValue) : JValue :=
  JObj [("content", JObj [("application/json", JObj [("schema", schema)])])].

Definition get_pet : JValue :=
  JObj [("summary", JStr "Find a pet");
        ("parameters",
          JArr [path_param "petId" "integer";
                query_param "name" "string" true;
                query_param "limit" "integer" false]);
        ("requestBody", json_content (ref_to "#/components/schemas/Pet"));
        ("responses", JObj [("200", json_content (ref_to "#/components/schemas/Pet"))])].

Definition pets_doc : JValue :=
  JObj [("components",
          JObj [("schemas",
                  JObj [("Tag", of_type "string"); ("Tags", tags); ("Pet", pet)])])].

(** A record type whose second property is named by a number. *)
Definition numbered : JValue :=
  JObj [("type", JStr "object");
        ("properties", JObj [("b", of_type "string"); ("1", of_type "string")])].

(** The unit generated for [get_pet]. *)
Definition get_pet_text : string :=
  Eval vm_compute in
    match generateFunction pets_doc 6 "/pets/{petId}" "get" get_pet with
    | Ok text => text
    | _ => EmptyString
    end.

(** [Tags] refers to [Tag] and [Pet] to [Tags]. *)
Definition pets_rank (r : string) : nat :=
  if String.eqb r "#/components/schemas/Tag" then 0
  else if String.eqb r "#/components/schemas/Tags" then 1
  else 2.

Definition pets_scope : list string :=
  ["#/components/schemas/Tags"; "#/components/schemas/Tag"].

(** The schemas of [pets_doc] next to the linked node, and an example value
    that mentions the node under a key that synthesis does not read. *)
Definition zoo_doc : JValue :=
  JObj [("components",
          JObj [("schemas",
                  JObj [("Tag", of_type "string"); ("Tags", tags); ("Pet", pet);
                        ("Node", node)]);
                ("examples", JObj [("first", ref_to "#/components/schemas/Node")])])].

(** An operation whose path parameter is declared optional. *)
Definition get_item : JValue :=
  JObj [("parameters",
          JArr [JObj [("name", JStr "id"); ("in", JStr "path");
                      ("required", JBool false); ("schema", of_type "integer")];
                JObj [("name", JStr "q"); ("in", JStr "query");
                      ("schema", of_type "string")]])].

Definition get_item_text : string :=
  Eval vm_compute in
    match generateFunction JNull 1 "/items/{id}" "get" get_item with
    | Ok text => text
    | _ => EmptyString
    end.

(** A route that holds a backtick: the text after it leaves the template
    literal of the request address and is emitted as code. *)
Definition open_route : string :=
  "/x`; } catch (e) {} throw new Error('boom'); try { let url = `/x".

End Sample.

(** ** Statements about the rest of the script *)

Module Shape.

(** The type expressions that synthesis can produce. *)
#[local] Unset Elimination Schemes.
Inductive ts_type : string -> Prop :=
| ts_any : ts_type "any"
| ts_string : ts_type "string"
| ts_number : ts_type "number"
| ts_boolean : ts_type "boolean"
| ts_array (elem : string) : ts_type elem -> ts_type ("Array<" ++ elem ++ ">")
| ts_open : ts_type "Record<string, any>"
| ts_record (fields : list (string * bool * string)) :
    Forall (fun field => ts_type (snd field)) fields ->
    ts_type ("{" ++ Str.join "; "
                      (map (fun field => member (fst (fst field)) (snd (fst field))
                                           (snd field)) fields)
             ++ "}").
#[local] Set Elimination Schemes.

(** [required] is a list, a string, or not given. *)
Definition required_ok (required : JValue) : bool :=
  match required with
  | JArr _ | JStr _ => true
  | _ => negb (truthy required)
  end.

(** A schema tree without references, whose [required] fields are lists. *)
Fixpoint tame (v : JValue) : bool :=
  match v with
  | JArr elems => forallb tame elems
  | JObj kvs =>
      negb (truthy (own kvs "$ref"))
      && required_ok (own kvs "required")
      && forallb (fun kv => tame (snd kv)) kvs
  | _ => true
  end.

(** The keys of a schema that synthesis reads. *)
Definition schema_keys : list string :=
  ["$ref"; "type"; "items"; "properties"; "required"].

Definition all_word (s : string) : bool :=
  forallb Str.is_word (list_ascii_of_string s).

(** An underscore followed by a lower-case letter occurs in the text. *)
Fixpoint has_pair (s : string) : bool :=
  match s with
  | EmptyString => false
  | String c s' => (Ascii.eqb c "_" && Spec.starts_lower s') || has_pair s'
  end.

(** The parameters that reach the generated function. *)
Definition wired (p : JValue) : bool :=
  Spec.located "path" p || Spec.located "query" p.

(** [undefined] and [null], on which a property read throws. *)
Definition nullish (v : JValue) : bool :=
  match v with
  | JUndefined | JNull => true
  | _ => false
  end.

(** Synthesis of [v] comes to synthesize [x]: [x] is the node behind the
    reference of [v], resolved through the data of the document, or the
    element schema of the array [v], or the schema of a property of the
    object [v] whose earlier properties are trees without references. *)
Inductive leads_to (doc : JValue) : JValue -> JValue -> Prop :=
| leads_by_reference (v target : JValue) (r : string) :
    getProp v "$ref" = Ok (JStr r) -> r <> EmptyString ->
    resolveRef r doc = Ok target -> own_walk doc (ref_parts r) = true ->
    leads_to doc v target
| leads_by_items (v ref items : JValue) :
    getProp v "$ref" = Ok ref -> truthy ref = false ->
    getProp v "type" = Ok (JStr "array") ->
    getProp v "items" = Ok items ->
    leads_to doc v items
| leads_by_property (v ref properties declared : JValue)
    (earlier later : list (string * JValue)) (kv : string * JValue) :
    getProp v "$ref" = Ok ref -> truthy ref = false ->
    getProp v "type" = Ok (JStr "object") ->
    getProp v "properties" = Ok properties -> truthy properties = true ->
    getProp v "required" = Ok declared ->
    has_includes (or_else declared (JArr [])) = true ->
    entries properties = Ok (earlier ++ kv :: later)%list ->
    forallb (fun kv' => tame (snd kv')) earlier = true ->
    leads_to doc v (snd kv).

(** The operations of the description, route by route, as the loops of the
    driver visit them. *)
Fixpoint operations_of (paths : list (string * JValue))
  : result (list (string * string * JValue)) :=
  match paths with
  | [] => Ok []
  | (route, methods) :: rest =>
      operations <- entries methods ;;
      others <- operations_of rest ;;
      Ok (app (map (fun mo => (route, fst mo, snd mo)) operations) others)
  end.

End Shape.

Module Sample2.

(** A description with two operations; the second one refers to a schema
    under a key that is not in the document. *)
Definition list_pets : JValue :=
  JObj [("operationId", JStr "list_pets");
        ("responses",
          JObj [("200", Sample.json_content
                          (JObj [("type", JStr "array");
                                 ("items", Sample.of_type "string")]))])].

Definition broken : JValue :=
  JObj [("responses",
          JObj [("200", Sample.json_content (Sample.ref_to "#/definitions/missing/Pet"))])].

Definition two_paths : list (string * JValue) :=
  [("/pets", JObj [("get", list_pets)]);
   ("/pets/{id}", JObj [("get", broken); ("delete", list_pets)])].

Definition small_doc : JValue :=
  JObj [("paths", JObj [("/pets", JObj [("get", list_pets)])])].

(** An operation whose name holds a [/]: the file would lie in a directory
    that does not exist. *)
Definition nested : JValue := JObj [("operationId", JStr "pets/list")].

Definition nested_doc : JValue :=
  JObj [("paths", JObj [("/pets", JObj [("get", nested); ("post", list_pets)])])].

(** A file system that accepts every write. *)
Definition always (written : list (string * string)) (file : string * string)
  : bool := true.

(** A file system with the output directory and no directory in it. *)
Definition flat (written : list (string * string)) (file : string * string)
  : bool := negb (Str.includes (fst file) "/").

(** The unit generated for [list_pets]. *)
Definition list_pets_text : string :=
  Eval vm_compute in
    match generateFunction JNull 3 "/pets" "get" list_pets with
    | Ok text => text
    | _ => EmptyString
    end.

End Sample2.
(** ** Auxiliary definitions of the proofs *)

(** [g] agrees with [f] wherever [f] finishes. *)
Definition extends {A B : Type} (f g : A -> result B) : Prop :=
  forall a r, f a = r -> r <> OutOfFuel -> g a = r.

(** The body of [schemaToTS], with the recursive calls made through [rec]. *)
Definition synthesize_with (rec : JValue -> result string) (schema doc : JValue)
  : result string :=
  if negb (truthy schema) then Ok "any"
  else
    ref <- getProp schema "$ref" ;;
    if truthy ref then
      match ref with
      | JStr r => resolved <- resolveRef r doc ;; rec resolved
      | _ => Throw TypeError
      end
    else
      type <- getProp schema "type" ;;
      if is_str type "string" then Ok "string"
      else if is_str type "integer" || is_str type "number" then Ok "number"
      else if is_str type "boolean" then Ok "boolean"
      else if is_str type "array" then
        items <- getProp schema "items" ;;
        elem <- rec items ;;
        Ok ("Array<" ++ elem ++ ">")
      else if is_str type "object" then
        properties <- getProp schema "properties" ;;
        if negb (truthy properties) then Ok "Record<string, any>"
        else
          declared <- getProp schema "required" ;;
          let required := or_else declared (JArr []) in
          kvs <- entries properties ;;
          props <- mapM (fun kv =>
                           isRequired <- includes required (fst kv) ;;
                           type <- rec (snd kv) ;;
                           Ok (member (fst kv) isRequired type)) kvs ;;
          Ok ("{" ++ Str.join "; " props ++ "}")
      else Ok "any".

(** The number of constructors of a value. *)
Fixpoint jsize (v : JValue) : nat :=
  match v with
  | JArr elems => S (list_sum (map jsize elems))
  | JObj kvs => S (list_sum (map (fun kv => jsize (snd kv)) kvs))
  | _ => 1
  end.

(** A value that is not an object has none of the properties that
    [schemaToTS] reads. *)
Definition plain (v : JValue) : bool :=
  match v with
  | JObj _ => false
  | _ => true
  end.

(** A value without parts. *)
Definition scalar (v : JValue) : bool :=
  match v with
  | JArr _ | JObj _ => false
  | _ => true
  end.

(** Synthesis of [v] needs only finitely many nested calls. *)
Definition finishes (doc v : JValue) : Prop :=
  exists n, forall m, n <= m -> schemaToTS m v doc <> OutOfFuel.

(** The node behind the reference [r], if there is one, can be
    synthesized. *)
Definition ref_ok (doc : JValue) (r : string) : Prop :=
  forall target, resolveRef r doc = Ok target -> finishes doc target.

(** The nodes on which one call of [schemaToTS] calls itself, when no
    exception comes first: the target of the reference, or the element
    schema, or the property schemas. *)
Definition callees (schema doc : JValue) : list JValue :=
  match getProp schema "$ref" with
  | Ok ref =>
      if truthy ref then
        match ref with
        | JStr r =>
            match resolveRef r doc with
            | Ok target => [target]
            | _ => []
            end
        | _ => []
        end
      else
        match getProp schema "type" with
        | Ok type =>
            if is_str type "array" then
              match getProp schema "items" with
              | Ok items => [items]
              | _ => []
              end
            else if is_str type "object" then
              match getProp schema "properties", getProp schema "required" with
              | Ok properties, Ok declared =>
                  if truthy properties
                     && has_includes (or_else declared (JArr []))
                  then
                    match entries properties with
                    | Ok kvs => map snd kvs
                    | _ => []
                    end
                  else []
              | _, _ => []
              end
            else []
        | _ => []
        end
  | _ => []
  end.

(** The writes [written] are accepted one after the other, after the
    writes [done]. *)
Fixpoint accepted (accepts : list (string * string) -> string * string -> bool)
  (done written : list (string * string)) : bool :=
  match written with
  | [] => true
  | file :: rest => accepts done file && accepted accepts (app done [file]) rest
  end.

(** The file written for an operation: its name is the derived name with
    [.ts], its text is the generated unit. *)
Definition written_for (doc : JValue) (fuel : nat)
  (operation : string * string * JValue) (file : string * string) : Prop :=
  let '(route, method, op) := operation in
  exists name,
    fileName route method op = Ok name
    /\ fst file = name ++ ".ts"
    /\ generateFunction doc fuel route method op = Ok (snd file).

(** An occurrence of [pat] begins inside [before], in [before ++ rest]. *)
Definition starts_inside (pat before rest : string) : Prop :=
  exists b1 b2,
    before = b1 ++ b2 /\ b2 <> EmptyString /\ prefix pat (b2 ++ rest) = true.
(** * Properties *)

Example toStr_num : toStr (JArr [int 12; JNull; int (-3); JStr "x"]) = "12,,-3,x".
Proof. reflexivity. Qed.

Example entries_order :
  entries (JObj [("b", JNull); ("10", JNull); ("2", JNull); ("a", JNull); ("01", JNull)])
  = Ok [("2", JNull); ("10", JNull); ("b", JNull); ("a", JNull); ("01", JNull)].
Proof. reflexivity. Qed.

Example entries_array : entries (JArr [JNull; JNull]) = Ok [("0", JNull); ("1", JNull)].
Proof. reflexivity. Qed.

Example split_ex : Str.split "/" "a/b//c/" = ["a"; "b"; EmptyString; "c"; EmptyString].
Proof. reflexivity. Qed.

Example replace_ex : Str.replace "{id}" "${id}" "/a/{id}/{id}" = "/a/${id}/{id}".
Proof. reflexivity. Qed.

Example replace_nonword_ex : Str.replace_nonword "/users/{id}/x-y" = "_users_id_x_y".
Proof. reflexivity. Qed.

Example camel_ex : Str.camel "get_users__id_X_9_a" = "getUsers_Id_X_9A".
Proof. reflexivity. Qed.



(** The keys that the script reads by name are inherited by no value, so
    that [getProp] is what JavaScript returns for them; a segment of a
    reference can be any text. *)
Example script_keys_are_own (v : JValue) :
  forallb (fun k => negb (inherited v k))
    ["paths"; "operationId"; "parameters"; "requestBody"; "responses"; "200";
     "content"; "application/json"; "schema"; "summary"; "description"; "in";
     "name"; "required"; "$ref"; "type"; "items"; "properties"] = true.
Proof. destruct v; reflexivity. Qed.

(** For a segment that names an inherited member and no own property,
    the script finds the member where [walk] finds nothing; [own_walk]
    tells these walks apart. *)
Example inherited_segment :
  walk Sample.pets_doc ["components"; "toString"] = Ok JUndefined
  /\ own_walk Sample.pets_doc ["components"; "toString"] = false.
Proof. split; reflexivity. Qed.

(** ** The outcome monad *)

Lemma bind_Ok {A B : Type} (m : result A) (k : A -> result B) (b : B) :
  bind m k = Ok b -> exists a, m = Ok a /\ k a = Ok b.
Proof.
  destruct m as [a| |]; simpl; intros H; try discriminate.
  exists a; split; [reflexivity | exact H].
Qed.

(** [unbind H as x Hx] reads the first step of a successful sequence. *)
Tactic Notation "unbind" hyp(H) "as" ident(x) ident(Hx) :=
  apply bind_Ok in H as (x & Hx & H).

Lemma bind_not_OutOfFuel {A B : Type} (m : result A) (k : A -> result B) :
  m <> OutOfFuel -> (forall a, m = Ok a -> k a <> OutOfFuel) ->
  bind m k <> OutOfFuel.
Proof.
  destruct m as [a| |]; simpl; intros Hm Hk.
  - apply Hk; reflexivity.
  - discriminate.
  - contradiction.
Qed.


Lemma bind_extends {A B : Type} (m m' : result A) (k k' : A -> result B)
  (r : result B) :
  (m <> OutOfFuel -> m' = m) -> extends k k' ->
  bind m k = r -> r <> OutOfFuel -> bind m' k' = r.
Proof.
  intros Hm Hk H Hr.
  destruct m as [a| |]; simpl in H.
  - rewrite Hm by discriminate. simpl. apply (Hk a r H Hr).
  - rewrite Hm by discriminate. exact H.
  - congruence.
Qed.

Lemma mapM_extends {A B : Type} (f g : A -> result B) :
  extends f g -> extends (mapM f) (mapM g).
Proof.
  intros Hfg l. induction l as [|a l IH]; intros r H Hr.
  - exact H.
  - simpl in *.
    eapply bind_extends; [| | exact H | exact Hr].
    + intros Hne. apply (Hfg a (f a) eq_refl Hne).
    + intros b r1 H1 Hr1.
      eapply bind_extends; [| | exact H1 | exact Hr1].
      * intros Hne. apply (IH (mapM f l) eq_refl Hne).
      * intros bs r2 H2 _. exact H2.
Qed.

Lemma mapM_Ok_Forall2 {A B : Type} (f : A -> result B) (l : list A) (bs : list B) :
  mapM f l = Ok bs <-> Forall2 (fun a b => f a = Ok b) l bs.
Proof.
  revert bs. induction l as [|a l IH]; intros bs; simpl.
  - split.
    + intros H; injection H as <-; constructor.
    + intros H; inversion H; reflexivity.
  - split.
    + intros H. apply bind_Ok in H as (b & Hb & H).
      apply bind_Ok in H as (bs' & Hbs & H). injection H as <-.
      constructor; [exact Hb | apply IH; exact Hbs].
    + intros H. inversion H as [|a' b l' bs' Hb Hbs]; subst.
      rewrite Hb; simpl. apply IH in Hbs. rewrite Hbs; reflexivity.
Qed.

(** ** Property reads *)

Lemma getProp_not_OutOfFuel (v : JValue) (k : string) : getProp v k <> OutOfFuel.
Proof.
  destruct v; simpl; try discriminate.
  - destruct (array_index k); [destruct (String.get _ _)|destruct (String.eqb _ _)];
      discriminate.
  - destruct (array_index k); [|destruct (String.eqb _ _)]; discriminate.
Qed.

Lemma walk_not_OutOfFuel (parts : list string) (current : JValue) :
  walk current parts <> OutOfFuel.
Proof.
  revert current. induction parts as [|part rest IH]; intros current; simpl.
  - discriminate.
  - apply bind_not_OutOfFuel; [apply getProp_not_OutOfFuel | intros; apply IH].
Qed.

Lemma walk_app (before after : list string) (current : JValue) :
  walk current (before ++ after) = (node <- walk current before ;; walk node after).
Proof.
  revert current. induction before as [|part rest IH]; intros current; simpl.
  - reflexivity.
  - destruct (getProp current part) as [next| |]; simpl; [apply IH | reflexivity..].
Qed.

Lemma includes_not_OutOfFuel (required : JValue) (key : string) :
  includes required key <> OutOfFuel.
Proof. destruct required; discriminate. Qed.

Lemma entries_not_OutOfFuel (v : JValue) : entries v <> OutOfFuel.
Proof. destruct v; discriminate. Qed.

Create HintDb fuel.

#[local] Hint Resolve getProp_not_OutOfFuel walk_not_OutOfFuel
  includes_not_OutOfFuel entries_not_OutOfFuel : fuel.

(** ** Fuel *)


Lemma schemaToTS_S (n : nat) (schema doc : JValue) :
  schemaToTS (S n) schema doc
  = synthesize_with (fun s => schemaToTS n s doc) schema doc.
Proof. reflexivity. Qed.

Lemma synthesize_with_extends (rec rec' : JValue -> result string) (doc : JValue) :
  extends rec rec' ->
  extends (fun s => synthesize_with rec s doc) (fun s => synthesize_with rec' s doc).
Proof.
  intros Hrec schema r H Hr. unfold synthesize_with in *.
  destruct (negb (truthy schema)); [exact H|].
  eapply bind_extends; [intros _; reflexivity | | exact H | exact Hr].
  clear H Hr r. intros ref r H Hr.
  destruct (truthy ref).
  - destruct ref; try exact H.
    eapply bind_extends; [intros _; reflexivity | | exact H | exact Hr].
    exact Hrec.
  - eapply bind_extends; [intros _; reflexivity | | exact H | exact Hr].
    clear H Hr r. intros type r H Hr.
    destruct (is_str type "string"); [exact H|].
    destruct (is_str type "integer" || is_str type "number"); [exact H|].
    destruct (is_str type "boolean"); [exact H|].
    destruct (is_str type "array").
    { eapply bind_extends; [intros _; reflexivity | | exact H | exact Hr].
      clear H Hr r. intros items r H Hr.
      eapply bind_extends; [| | exact H | exact Hr].
      - intros Hne. apply (Hrec items _ eq_refl Hne).
      - intros elem r' H' _. exact H'. }
    destruct (is_str type "object"); [|exact H].
    eapply bind_extends; [intros _; reflexivity | | exact H | exact Hr].
    clear H Hr r. intros properties r H Hr.
    destruct (negb (truthy properties)); [exact H|].
    eapply bind_extends; [intros _; reflexivity | | exact H | exact Hr].
    clear H Hr r. intros declared r H Hr. cbv zeta in *.
    eapply bind_extends; [intros _; reflexivity | | exact H | exact Hr].
    clear H Hr r. intros kvs r H Hr.
    eapply bind_extends; [| | exact H | exact Hr].
    + intros Hne. refine (mapM_extends _ _ _ kvs _ eq_refl Hne).
      intros kv r1 H1 Hr1.
      eapply bind_extends; [intros _; reflexivity | | exact H1 | exact Hr1].
      intros isRequired r2 H2 Hr2.
      eapply bind_extends; [| | exact H2 | exact Hr2].
      * intros Hne'. apply (Hrec (snd kv) _ eq_refl Hne').
      * intros t r3 H3 _. exact H3.
    + intros props r' H' _. exact H'.
Qed.

(** More fuel does not change a finished synthesis. *)
Lemma schemaToTS_more_fuel (doc : JValue) (n m : nat) :
  n <= m -> extends (fun s => schemaToTS n s doc) (fun s => schemaToTS m s doc).
Proof.
  revert m. induction n as [|n IH]; intros m Hle schema r H Hr.
  - simpl in H. congruence.
  - destruct m as [|m]; [lia|].
    rewrite schemaToTS_S in *.
    refine (synthesize_with_extends _ _ doc _ schema r H Hr).
    apply IH. lia.
Qed.

(** ** References *)

Lemma has_ref_truthy (schema : JValue) (ref : string) :
  getProp schema "$ref" = Ok (JStr ref) -> truthy schema = true.
Proof.
  destruct schema; simpl; try discriminate; reflexivity.
Qed.

Lemma nonempty_truthy (s : string) : s <> EmptyString -> truthy (JStr s) = true.
Proof.
  intros H. simpl. destruct (String.eqb_spec s EmptyString); [contradiction | reflexivity].
Qed.

Lemma schemaToTS_ref (n : nat) (schema doc : JValue) (ref : string) :
  getProp schema "$ref" = Ok (JStr ref) -> ref <> EmptyString ->
  schemaToTS (S n) schema doc
  = (resolved <- resolveRef ref doc ;; schemaToTS n resolved doc).
Proof.
  intros Href Hne. rewrite schemaToTS_S. unfold synthesize_with.
  rewrite (has_ref_truthy _ _ Href), Href.
  change (bind (Ok (JStr ref)) ?k) with (k (JStr ref)). cbv beta.
  rewrite (nonempty_truthy _ Hne). reflexivity.
Qed.

(** C2.  A schema that carries a reference is synthesized as the node the
    reference resolves to: one more nested call gives the outcome of the
    target, so the two finish with the same type or the same exception, or
    neither finishes. *)
Theorem reference_is_transparent (doc schema target : JValue) (ref : string) :
  getProp schema "$ref" = Ok (JStr ref) -> ref <> EmptyString ->
  resolveRef ref doc = Ok target ->
  (forall n, schemaToTS (S n) schema doc = schemaToTS n target doc)
  /\ (forall r, yields schema doc r <-> yields target doc r).
Proof.
  intros Href Hne Hres.
  assert (Hstep : forall n, schemaToTS (S n) schema doc = schemaToTS n target doc).
  { intros n. rewrite (schemaToTS_ref n _ _ _ Href Hne), Hres. reflexivity. }
  split; [exact Hstep|].
  intros r; split; intros [Hr [fuel H]]; (split; [exact Hr|]).
  - destruct fuel as [|n]; [simpl in H; congruence|].
    exists n. rewrite <- Hstep. exact H.
  - exists (S fuel). rewrite Hstep. exact H.
Qed.

Lemma reference_is_transparent_witness :
  schemaToTS 3 (Sample.ref_to "#/components/schemas/Tags") Sample.pets_doc
  = schemaToTS 2 Sample.tags Sample.pets_doc.
Proof.
  apply (reference_is_transparent Sample.pets_doc
           (Sample.ref_to "#/components/schemas/Tags") Sample.tags
           "#/components/schemas/Tags").
  - reflexivity.
  - discriminate.
  - reflexivity.
Defined.

(** C3, as the script behaves.  Take a reference and a segment of it that
    the document does not have, at the node that the segments before it
    lead to through the data of the document.  When that node is [null],
    the read of the segment throws a [TypeError].  When the node has no
    member of that name, own or inherited, the read gives [undefined] and
    no error: if the segment is the last one, the resolver returns
    [undefined] and the referring schema is typed [any]; if segments follow
    it, the next read throws a [TypeError].  Synthesis passes the
    exception on. *)
Theorem resolveRef_absent_segment (doc schema node : JValue) (ref : string)
  (before after : list string) (part : string) :
  getProp schema "$ref" = Ok (JStr ref) -> ref <> EmptyString ->
  ref_parts ref = (before ++ part :: after)%list ->
  walk doc before = Ok node -> own_walk doc before = true ->
  (Shape.nullish node = true ->
   resolveRef ref doc = Throw TypeError
   /\ forall n, schemaToTS (S n) schema doc = Throw TypeError)
  /\ (Spec.absent node part ->
      (after = [] ->
       resolveRef ref doc = Ok JUndefined
       /\ forall n, schemaToTS (S (S n)) schema doc = Ok "any")
      /\ (after <> [] ->
          resolveRef ref doc = Throw TypeError
          /\ forall n, schemaToTS (S n) schema doc = Throw TypeError)).
Proof.
  intros Href Hne Hparts Hwalk _.
  assert (Hres : resolveRef ref doc
                 = (next <- getProp node part ;; walk next after)).
  { unfold resolveRef. rewrite Hparts, walk_app, Hwalk. reflexivity. }
  split.
  - intros Hnull.
    assert (Hthrow : resolveRef ref doc = Throw TypeError).
    { rewrite Hres. destruct node; try discriminate Hnull; reflexivity. }
    split; [exact Hthrow|].
    intros n. rewrite (schemaToTS_ref _ _ _ _ Href Hne), Hthrow. reflexivity.
  - intros [Hpart _]. rewrite Hpart in Hres. split; intros Hafter.
    + subst after. split; [exact Hres|].
      intros n. rewrite (schemaToTS_ref _ _ _ _ Href Hne), Hres. reflexivity.
    + destruct after as [|next rest]; [contradiction|].
      split; [exact Hres|].
      intros n. rewrite (schemaToTS_ref _ _ _ _ Href Hne), Hres. reflexivity.
Qed.

Lemma resolveRef_absent_segment_witness :
  (resolveRef "#/components/schemas/Pet"
     (JObj [("components", JObj [("schemas", JNull)])]) = Throw TypeError
   /\ forall n, schemaToTS (S n) (Sample.ref_to "#/components/schemas/Pet")
                  (JObj [("components", JObj [("schemas", JNull)])])
                = Throw TypeError)
  /\ (resolveRef "#/components/schemas/Missing" Sample.pets_doc = Ok JUndefined
      /\ forall n, schemaToTS (S (S n)) (Sample.ref_to "#/components/schemas/Missing")
                     Sample.pets_doc = Ok "any")
  /\ (resolveRef "#/components/missing/Pet" Sample.pets_doc = Throw TypeError
      /\ forall n, schemaToTS (S n) (Sample.ref_to "#/components/missing/Pet")
                     Sample.pets_doc = Throw TypeError).
Proof.
  split; [|split].
  - apply (proj1 (resolveRef_absent_segment
                    (JObj [("components", JObj [("schemas", JNull)])])
                    (Sample.ref_to "#/components/schemas/Pet") JNull
                    "#/components/schemas/Pet" ["components"; "schemas"] [] "Pet"
                    eq_refl ltac:(discriminate) eq_refl eq_refl eq_refl)).
    reflexivity.
  - apply (proj2 (resolveRef_absent_segment Sample.pets_doc
                    (Sample.ref_to "#/components/schemas/Missing")
                    (JObj [("Tag", Sample.of_type "string"); ("Tags", Sample.tags);
                           ("Pet", Sample.pet)])
                    "#/components/schemas/Missing" ["components"; "schemas"] []
                    "Missing" eq_refl ltac:(discriminate) eq_refl eq_refl eq_refl)).
    + split; reflexivity.
    + reflexivity.
  - apply (proj2 (resolveRef_absent_segment Sample.pets_doc
                    (Sample.ref_to "#/components/missing/Pet")
                    (JObj [("schemas",
                             JObj [("Tag", Sample.of_type "string");
                                   ("Tags", Sample.tags); ("Pet", Sample.pet)])])
                    "#/components/missing/Pet" ["components"] ["Pet"]
                    "missing" eq_refl ltac:(discriminate) eq_refl eq_refl eq_refl)).
    + split; reflexivity.
    + discriminate.
Defined.

(** C3, as the specification states it, fails: the last segment of this
    reference names no member of the node it is read from, own or
    inherited, yet the resolver reports no error and the referring schema
    is silently typed [any]. *)
Lemma resolveRef_absent_last_segment_is_silent :
  walk Sample.pets_doc ["components"; "schemas"]
  = Ok (JObj [("Tag", Sample.of_type "string"); ("Tags", Sample.tags);
              ("Pet", Sample.pet)])
  /\ own_walk Sample.pets_doc ["components"; "schemas"] = true
  /\ Spec.absent (JObj [("Tag", Sample.of_type "string"); ("Tags", Sample.tags);
                        ("Pet", Sample.pet)]) "Missing"
  /\ resolveRef "#/components/schemas/Missing" Sample.pets_doc = Ok JUndefined
  /\ schemaToTS 2 (Sample.ref_to "#/components/schemas/Missing") Sample.pets_doc
     = Ok "any".
Proof. repeat split. Qed.

(** ** Absent schemas *)

Lemma has_type_truthy (schema : JValue) (t : string) :
  getProp schema "type" = Ok (JStr t) -> truthy schema = true.
Proof.
  destruct schema; simpl; try discriminate; reflexivity.
Qed.

Lemma getProp_nullish (v : JValue) (k : string) :
  Shape.nullish v = true -> getProp v k = Throw TypeError.
Proof. destruct v; simpl; intros H; try discriminate; reflexivity. Qed.




(** ** Parameters *)

Lemma pathParamType_member (doc : JValue) (fuel : nat) (p : JValue) (text : string) :
  pathParamType doc fuel p = Ok text <-> Spec.path_member doc fuel p text.
Proof.
  unfold pathParamType, Spec.path_member. split.
  - intros H. apply bind_Ok in H as (name & Hname & H).
    apply bind_Ok in H as (schema & Hschema & H).
    apply bind_Ok in H as (type & Htype & H). injection H as <-.
    exists name, schema, type. repeat split; assumption.
  - intros (name & schema & type & Hname & Hschema & Htype & ->).
    rewrite Hname, Hschema. simpl. rewrite Htype. reflexivity.
Qed.

Lemma queryParamType_member (doc : JValue) (fuel : nat) (p : JValue) (text : string) :
  queryParamType doc fuel p = Ok text <-> Spec.query_member doc fuel p text.
Proof.
  unfold queryParamType, Spec.query_member. split.
  - intros H. apply bind_Ok in H as (name & Hname & H).
    apply bind_Ok in H as (required & Hreq & H).
    apply bind_Ok in H as (schema & Hschema & H).
    apply bind_Ok in H as (type & Htype & H). injection H as <-.
    exists name, required, schema, type. repeat split; assumption.
  - intros (name & required & schema & type & Hname & Hreq & Hschema & Htype & ->).
    rewrite Hname, Hreq, Hschema. simpl. rewrite Htype. reflexivity.
Qed.

Lemma Forall2_iff {A B : Type} (P Q : A -> B -> Prop) (l : list A) (l' : list B) :
  (forall a b, P a b <-> Q a b) -> Forall2 P l l' -> Forall2 Q l l'.
Proof.
  intros HPQ H. induction H; constructor; [apply HPQ|]; assumption.
Qed.


(** ** The generated unit *)

Lemma append_assoc (a b c : string) : (a ++ b) ++ c = a ++ b ++ c.
Proof.
  induction a as [|x a IH]; simpl; [reflexivity | rewrite IH; reflexivity].
Qed.

Lemma getPropOpt_Ok (v x : JValue) (k : string) :
  getProp v k = Ok x -> getPropOpt v k = x.
Proof. unfold getPropOpt. intros ->. reflexivity. Qed.

Lemma filter_in_Ok (location : string) (parameters kept : list JValue) :
  filter_in location parameters = Ok kept ->
  kept = filter (Spec.located location) parameters.
Proof.
  revert kept. induction parameters as [|p rest IH]; intros kept H; simpl in *.
  - injection H as <-. reflexivity.
  - apply bind_Ok in H as (place & Hplace & H).
    apply bind_Ok in H as (kept' & Hkept & H). injection H as <-.
    unfold Spec.located at 1. rewrite (getPropOpt_Ok _ _ _ Hplace).
    rewrite (IH kept' Hkept). reflexivity.
Qed.

Lemma length_exist (params : list JValue) :
  negb (Nat.eqb (List.length params) 0) = Spec.exist params.
Proof. destruct params; reflexivity. Qed.

Lemma paramSignature_of_parts (pathParams queryParams names : list JValue)
  (requestBody : JValue) (pathMembers queryMembers : list string) (bodyType : string) :
  mapM (fun p => getProp p "name") pathParams = Ok names ->
  paramSignature_of pathParams queryParams requestBody
    (Str.join "; " pathMembers) (Str.join "; " queryMembers) bodyType
  = Ok (Spec.signature
          (Spec.signature_parts pathParams queryParams requestBody names
             pathMembers queryMembers bodyType)).
Proof.
  intros Hnames. unfold paramSignature_of. rewrite Hnames. simpl bind.
  rewrite !length_exist. unfold Spec.signature_parts, Spec.path_group,
    Spec.query_param, Spec.body_param.
  destruct (Spec.exist pathParams), (Spec.exist queryParams), (truthy requestBody);
    simpl; rewrite ?append_assoc; simpl; rewrite ?append_assoc; reflexivity.
Qed.

(** What a successful run of [generateFunction] has computed. *)
Lemma generateFunction_Ok (doc : JValue) (fuel : nat) (route method : string)
  (operation : JValue) (text : string) :
  generateFunction doc fuel route method operation = Ok text ->
  exists name parameters requestBody responses pathTypes queryTypes bodyType
         responseType signature url summary description,
    let pathParams := filter (Spec.located "path") parameters in
    let queryParams := filter (Spec.located "query") parameters in
    let responseSchema :=
      getPropOpt (getPropOpt (getPropOpt (getPropOpt responses "200") "content")
                    "application/json") "schema" in
    functionName route method operation = Ok name
    /\ parameters_of operation = Ok parameters
    /\ getProp operation "requestBody" = Ok requestBody
    /\ getProp operation "responses" = Ok responses
    /\ mapM (pathParamType doc fuel) pathParams = Ok pathTypes
    /\ mapM (queryParamType doc fuel) queryParams = Ok queryTypes
    /\ requestBodyType_of doc fuel requestBody = Ok bodyType
    /\ responseType_of doc fuel responseSchema = Ok responseType
    /\ paramSignature_of pathParams queryParams requestBody
         (Str.join "; " pathTypes) (Str.join "; " queryTypes) bodyType = Ok signature
    /\ url_of route pathParams = Ok url
    /\ getProp operation "summary" = Ok summary
    /\ getProp operation "description" = Ok description
    /\ text = unit_text (toStr (or_else summary (JStr EmptyString)))
                (toStr (or_else description (JStr EmptyString))) name signature responseType
                method url (queryHandling_of queryParams) (bodyHandling_of requestBody).
Proof.
  intros H. unfold generateFunction in H.
  unbind H as name Hname.
  unbind H as parameters Hparams.
  unbind H as pathParams Hpath.
  unbind H as queryParams Hquery.
  unbind H as requestBody Hbody.
  unbind H as responseSchema Hresp.
  unbind H as pathTypes' HpathT.
  unbind H as queryTypes' HqueryT.
  unbind H as bodyType HbodyT.
  unbind H as responseType HrespT.
  unbind H as signature Hsig.
  unbind H as url Hurl.
  unbind H as summary Hsum.
  unbind H as description Hdesc.
  injection H as <-.
  apply filter_in_Ok in Hpath, Hquery. subst pathParams queryParams.
  unfold responseSchema_of in Hresp.
  apply bind_Ok in Hresp as (responses & Hresponses & Hresp). injection Hresp as <-.
  unfold pathParamTypes_of in HpathT.
  apply bind_Ok in HpathT as (pathTypes & HpathT & E). injection E as <-.
  unfold queryParamTypes_of in HqueryT.
  apply bind_Ok in HqueryT as (queryTypes & HqueryT & E). injection E as <-.
  exists name, parameters, requestBody, responses, pathTypes, queryTypes, bodyType,
    responseType, signature, url, summary, description.
  cbv zeta. repeat (split; [assumption|]). reflexivity.
Qed.

Lemma mapM_names (params names : list JValue) :
  mapM (fun p => getProp p "name") params = Ok names
  <-> Forall2 (fun p n => getProp p "name" = Ok n) params names.
Proof. apply (mapM_Ok_Forall2 (fun p => getProp p "name")). Qed.

Lemma parameters_of_Ok (operation : JValue) (parameters : list JValue) :
  parameters_of operation = Ok parameters ->
  exists declared,
    getProp operation "parameters" = Ok declared
    /\ or_else declared (JArr []) = JArr parameters.
Proof.
  unfold parameters_of. intros H. unbind H as declared Hdeclared.
  exists declared. split; [exact Hdeclared|].
  destruct (or_else declared (JArr [])); try discriminate H.
  injection H as <-. reflexivity.
Qed.

Lemma requestBodyType_of_Ok (doc : JValue) (fuel : nat) (requestBody : JValue)
  (type : string) :
  requestBodyType_of doc fuel requestBody = Ok type ->
  truthy requestBody = true -> Spec.body_type doc fuel requestBody type.
Proof.
  unfold requestBodyType_of. intros H Ht. rewrite Ht in H.
  unbind H as content Hcontent. unbind H as json Hjson.
  exists content, json. repeat split; assumption.
Qed.

Lemma responseType_of_Ok (doc : JValue) (fuel : nat) (responses : JValue)
  (type : string) :
  responseType_of doc fuel (Spec.response_schema responses) = Ok type ->
  Spec.response_type doc fuel responses type.
Proof.
  unfold responseType_of, Spec.response_type.
  destruct (truthy (Spec.response_schema responses)); [auto | congruence].
Qed.

(** A generated unit, in terms of what the script reads of the operation. *)
Lemma generateFunction_unit (doc : JValue) (fuel : nat) (route method : string)
  (operation : JValue) (text : string) :
  generateFunction doc fuel route method operation = Ok text ->
  exists name declared parameters requestBody responses names pathMembers
         queryMembers bodyType responseType url summary description,
    let pathParams := filter (Spec.located "path") parameters in
    let queryParams := filter (Spec.located "query") parameters in
    functionName route method operation = Ok name
    /\ getProp operation "parameters" = Ok declared
    /\ or_else declared (JArr []) = JArr parameters
    /\ getProp operation "requestBody" = Ok requestBody
    /\ getProp operation "responses" = Ok responses
    /\ Forall2 (fun p n => getProp p "name" = Ok n) pathParams names
    /\ Forall2 (Spec.path_member doc fuel) pathParams pathMembers
    /\ Forall2 (Spec.query_member doc fuel) queryParams queryMembers
    /\ (truthy requestBody = true -> Spec.body_type doc fuel requestBody bodyType)
    /\ Spec.response_type doc fuel responses responseType
    /\ url_of route pathParams = Ok url
    /\ getProp operation "summary" = Ok summary
    /\ getProp operation "description" = Ok description
    /\ text
       = Str.join Str.newline
           (app (Spec.opening (Spec.doc_line summary) (Spec.doc_line description)
                   name
                   (Spec.signature
                      (Spec.signature_parts pathParams queryParams requestBody
                         names pathMembers queryMembers bodyType))
                   responseType)
              (body method url (queryHandling_of queryParams)
                 (bodyHandling_of requestBody))).
Proof.
  intros H. apply generateFunction_Ok in H
    as (name & parameters & requestBody & responses & pathTypes & queryTypes
        & bodyType & responseType & signature & url & summary & description & H).
  cbv zeta in H.
  destruct H as (Hname & Hparams & Hbody & Hresponses & HpathT & HqueryT & HbodyT
                 & HrespT & Hsig & Hurl & Hsum & Hdesc & ->).
  apply parameters_of_Ok in Hparams as (declared & Hdeclared & Hlist).
  assert (Hnames : exists names,
             mapM (fun p => getProp p "name")
               (filter (Spec.located "path") parameters) = Ok names).
  { unfold paramSignature_of in Hsig. apply bind_Ok in Hsig as (names & Hn & _).
    exists names. exact Hn. }
  destruct Hnames as (names & Hnames).
  rewrite (paramSignature_of_parts _ _ names _ _ _ _ Hnames) in Hsig.
  injection Hsig as <-.
  exists name, declared, parameters, requestBody, responses, names, pathTypes,
    queryTypes, bodyType, responseType, url, summary, description.
  cbv zeta. repeat (split; [assumption|]).
  split; [apply mapM_names; exact Hnames|].
  split.
  { apply mapM_Ok_Forall2 in HpathT.
    refine (Forall2_iff _ _ _ _ _ HpathT). intros; apply pathParamType_member. }
  split.
  { apply mapM_Ok_Forall2 in HqueryT.
    refine (Forall2_iff _ _ _ _ _ HqueryT). intros; apply queryParamType_member. }
  split; [apply requestBodyType_of_Ok; exact HbodyT|].
  split; [apply responseType_of_Ok; exact HrespT|].
  repeat (split; [assumption|]). reflexivity.
Qed.



(** The signature of the sample operation, and of an operation without
    parameters and body. *)
Example get_pet_signature :
  exists before after,
    Sample.get_pet_text
    = before
      ++ "export async function getPetsPetId_({ petId }: { petId: number }, query: { name: string; limit?: number }, body: {name: string; age?: number; tags?: Array<string>}): Promise<{name: string; age?: number; tags?: Array<string>} | null> {"
      ++ after.
Proof.
  exists (Str.join Str.newline ["'use server';"; EmptyString; "/**"; " * Find a pet"; " * "; " */"]
          ++ Str.newline).
  exists (Str.newline
          ++ Str.join Str.newline
               (body "get" "${process.env.API_URL}/pets/${petId}" queryHandling_text
                  bodyHandling_text)).
  vm_compute. reflexivity.
Qed.

Example no_parameters_signature :
  paramSignature_of [] [] JUndefined EmptyString EmptyString "undefined" = Ok "_?: void".
Proof. reflexivity. Qed.


Lemma append_empty (s : string) : s ++ EmptyString = s.
Proof. induction s as [|c s IH]; simpl; congruence. Qed.


(** ** The request address *)

Lemma prefix_char (a c : ascii) (s : string) :
  prefix (String a EmptyString) (String c s) = Ascii.eqb c a.
Proof.
  cbn [prefix]. destruct (ascii_dec a c) as [E|E].
  - subst. rewrite Ascii.eqb_refl. destruct s; reflexivity.
  - symmetry. apply Ascii.eqb_neq. congruence.
Qed.

Lemma split_first_char_cons (a c : ascii) (s : string) :
  Str.split_first (String a EmptyString) (String c s)
  = if Ascii.eqb c a then Some (EmptyString, s)
    else match Str.split_first (String a EmptyString) s with
         | Some (before, after) => Some (String c before, after)
         | None => None
         end.
Proof.
  cbn [Str.split_first]. rewrite prefix_char. reflexivity.
Qed.

Lemma includes_dollar_cons (c : ascii) (s : string) :
  Str.includes (String c s) "$" = false ->
  Ascii.eqb c "$" = false /\ Str.includes s "$" = false.
Proof.
  unfold Str.includes. rewrite split_first_char_cons.
  destruct (Ascii.eqb c "$"); [discriminate|].
  intros H. split; [reflexivity|].
  destruct (Str.split_first "$" s) as [[x y]|]; [discriminate | reflexivity].
Qed.

Lemma expand_plain (matched before after repl : string) :
  Str.includes repl "$" = false ->
  Str.expand matched before after repl = repl.
Proof.
  induction repl as [|c repl IH]; intros H; simpl; [reflexivity|].
  apply includes_dollar_cons in H as [Hc Hrest].
  rewrite Hc, (IH Hrest). reflexivity.
Qed.

Lemma includes_dollar_app (a b : string) :
  Str.includes a "$" = false -> Str.includes b "$" = false ->
  Str.includes (a ++ b) "$" = false.
Proof.
  induction a as [|c a IH]; intros Ha Hb; [exact Hb|].
  apply includes_dollar_cons in Ha as [Hc Ha].
  specialize (IH Ha Hb). unfold Str.includes in *.
  change (String c a ++ b) with (String c (a ++ b)).
  rewrite split_first_char_cons, Hc.
  destruct (Str.split_first "$" (a ++ b)) as [[x y]|]; [discriminate | reflexivity].
Qed.

(** One step of the loop of lines 142-144 replaces the first occurrence of
    the placeholder, and only that one. *)
Lemma substitute_first_occurrence (url before after name : string) (p : JValue) :
  getProp p "name" = Ok (JStr name) ->
  Str.includes name "$" = false ->
  Str.split_first ("{" ++ name ++ "}") url = Some (before, after) ->
  substitute url p = Ok (before ++ "${" ++ name ++ "}" ++ after).
Proof.
  intros Hname Hplain Hsplit. unfold substitute. rewrite Hname.
  unfold bind. cbv beta iota. change (toStr (JStr name)) with name.
  unfold Str.replace. rewrite Hsplit.
  assert (Hexp : forall m b a,
             Str.expand m b a ("${" ++ name ++ "}") = "${" ++ name ++ "}").
  { intros m b a.
    change ("${" ++ name ++ "}") with (String "$" ("{" ++ name ++ "}")).
    change (Str.expand m b a (String "$" ("{" ++ name ++ "}")))
      with (String "$" (Str.expand m b a ("{" ++ name ++ "}"))).
    rewrite expand_plain; [reflexivity|].
    apply (includes_dollar_app "{" (name ++ "}")); [reflexivity|].
    apply includes_dollar_app; [exact Hplain | reflexivity]. }
  rewrite Hexp. rewrite !append_assoc. reflexivity.
Qed.

(** C7, where the script departs from it: a placeholder that occurs twice in
    the route is substituted once, and the second [{id}] is sent as it is. *)
Theorem repeated_placeholder_survives :
  url_of "/pairs/{id}/{id}" [Sample.path_param "id" "integer"]
  = Ok "${process.env.API_URL}/pairs/${id}/{id}"
  /\ exists text,
       generateFunction Sample.pets_doc 1 "/pairs/{id}/{id}" "get"
         (JObj [("parameters", JArr [Sample.path_param "id" "integer"])]) = Ok text
       /\ In "    let url = `${process.env.API_URL}/pairs/${id}/{id}`;"
            (Str.split (ascii_of_nat 10) text).
Proof.
  split; [reflexivity|].
  eexists. split; [vm_compute; reflexivity|].
  vm_compute. do 8 right. left. reflexivity.
Qed.

(** The path parameter of the sample is declared with [required: false]
    and is rendered without a marker; the query parameter has no flag and
    is rendered with one. *)
Example get_item_signature :
  nth 6 (Str.split (ascii_of_nat 10) Sample.get_item_text) EmptyString
  = "export async function getItemsId_({ id }: { id: number }, query: { q?: string }): Promise<any | null> {".
Proof. vm_compute. reflexivity. Qed.

(** ** The contract of a generated function *)

(** C8, where the script departs from it.  The route is written into the
    template literal of the request address as it is.  With a backtick in
    the route the literal ends there and the text after it is code of the
    generated function: in this unit the first [try] is closed after the
    assignment and the statement [throw new Error('boom')] stands outside
    every [try], so that a call ends with this exception and not with
    [null]. *)
Theorem unescaped_route_leaves_the_try :
  generateFunction JNull 1 Sample.open_route "get" (JObj [])
  = Ok (Str.join Str.newline
          [ "'use server';";
            EmptyString;
            "/**";
            " * ";
            " * ";
            " */";
            "export async function getXCatchEThrowNew_ErrorBoomTryLetUrlX(_?: void): Promise<any | null> {";
            "  try {";
            "    let url = `${process.env.API_URL}/x`; } catch (e) {} throw new Error('boom'); try { let url = `/x`;";
            "    ";
            "    const options: RequestInit = {};";
            "    const res = await fetch(url, options);";
            "    ";
            "    if (!res.ok) {";
            "      console.error(`API error: GET ${url} ${res.status}`);";
            "      return null;";
            "    }";
            "    ";
            "    return await res.json();";
            "  } catch (error) {";
            "    console.error(error);";
            "    return null;";
            "  }";
            "}" ]).
Proof. vm_compute. reflexivity. Qed.

(** X16.  The declared result of a generated function is the type
    synthesized from the JSON schema of the response [200], or [any] when
    there is none, in a union with [null]. *)
Theorem declared_result_type (doc : JValue) (fuel : nat) (route method : string)
  (operation : JValue) (text : string) :
  generateFunction doc fuel route method operation = Ok text ->
  exists responses responseType name signature summary description rest,
    let responseSchema :=
      getPropOpt (getPropOpt (getPropOpt (getPropOpt responses "200") "content")
                    "application/json") "schema" in
    getProp operation "responses" = Ok responses
    /\ (if truthy responseSchema
        then schemaToTS fuel responseSchema doc = Ok responseType
        else responseType = "any")
    /\ text
       = Str.join Str.newline
           ("'use server';" :: EmptyString :: "/**" :: (" * " ++ summary)
            :: (" * " ++ description) :: " */"
            :: ("export async function " ++ name ++ "(" ++ signature
                ++ "): Promise<" ++ responseType ++ " | null> {")
            :: rest).
Proof.
  intros H. apply generateFunction_unit in H
    as (name & declared & parameters & requestBody & responses & names
        & pathMembers & queryMembers & bodyType & responseType & url & summary
        & description & H).
  cbv zeta in H.
  destruct H as (_ & _ & _ & _ & Hresponses & _ & _ & _ & _ & HrespT & _ & _ & _
                 & ->).
  exists responses, responseType, name. do 4 eexists. cbv zeta.
  split; [exact Hresponses|]. split; [exact HrespT | reflexivity].
Qed.

Lemma declared_result_type_witness :
  exists responses responseType name signature summary description rest,
    let responseSchema :=
      getPropOpt (getPropOpt (getPropOpt (getPropOpt responses "200") "content")
                    "application/json") "schema" in
    getProp Sample.get_pet "responses" = Ok responses
    /\ (if truthy responseSchema
        then schemaToTS 6 responseSchema Sample.pets_doc = Ok responseType
        else responseType = "any")
    /\ Sample.get_pet_text
       = Str.join Str.newline
           ("'use server';" :: EmptyString :: "/**" :: (" * " ++ summary)
            :: (" * " ++ description) :: " */"
            :: ("export async function " ++ name ++ "(" ++ signature
                ++ "): Promise<" ++ responseType ++ " | null> {")
            :: rest).
Proof.
  apply (declared_result_type Sample.pets_doc 6 "/pets/{petId}" "get"
           Sample.get_pet Sample.get_pet_text).
  vm_compute. reflexivity.
Defined.

(** X18.  The route is copied into the unit as it is: for an operation
    without path parameters the template literal of the request address
    holds the base address followed by the route, of which no character is
    escaped. *)
Theorem route_is_not_escaped (doc : JValue) (fuel : nat) (route method : string)
  (operation declared : JValue) (parameters : list JValue) (text : string) :
  generateFunction doc fuel route method operation = Ok text ->
  getProp operation "parameters" = Ok declared ->
  or_else declared (JArr []) = JArr parameters ->
  filter (Spec.located "path") parameters = [] ->
  exists summary description name signature responseType rest,
    text
    = Str.join Str.newline
        (app (Spec.opening summary description name signature responseType)
           ("  try {"
            :: ("    let url = `${process.env.API_URL}" ++ route ++ "`;")
            :: rest)).
Proof.
  intros H Hdeclared Hlist Hnone. apply generateFunction_unit in H
    as (name & declared' & parameters' & requestBody & responses & names
        & pathMembers & queryMembers & bodyType & responseType & url & summary
        & description & H).
  cbv zeta in H.
  destruct H as (_ & Hdeclared' & Hlist' & _ & _ & _ & _ & _ & _ & _ & Hurl & _ & _
                 & ->).
  rewrite Hdeclared in Hdeclared'. injection Hdeclared' as <-.
  rewrite Hlist in Hlist'. injection Hlist' as <-.
  rewrite Hnone in Hurl. injection Hurl as <-.
  do 6 eexists. unfold body. reflexivity.
Qed.

Lemma route_is_not_escaped_witness :
  exists summary description name signature responseType rest,
    match generateFunction JNull 1 Sample.open_route "get" (JObj []) with
    | Ok text => text
    | _ => EmptyString
    end
    = Str.join Str.newline
        (app (Spec.opening summary description name signature responseType)
           ("  try {"
            :: ("    let url = `${process.env.API_URL}" ++ Sample.open_route ++ "`;")
            :: rest)).
Proof.
  apply (route_is_not_escaped JNull 1 Sample.open_route "get" (JObj []) JUndefined
           []); reflexivity.
Defined.

(** ** Naming *)

Lemma length_append (a b : string) :
  String.length (a ++ b) = String.length a + String.length b.
Proof.
  induction a as [|c a IH]; simpl; [reflexivity | rewrite IH; reflexivity].
Qed.

(** Inside a run, the scan drops the rest of the run and goes on after it. *)
Lemma replace_nonword_run (s : string) :
  exists run rest,
    s = run ++ rest /\ Spec.all_nonword run = true /\ Spec.starts_word rest = true
    /\ Str.replace_nonword_from true s = Str.replace_nonword_from false rest.
Proof.
  induction s as [|c s IH].
  - exists EmptyString, EmptyString. repeat split.
  - destruct (Str.is_word c) eqn:Hc.
    + exists EmptyString, (String c s). simpl. rewrite Hc. repeat split.
    + destruct IH as (run & rest & -> & Hrun & Hrest & Heq).
      exists (String c run), rest. simpl. rewrite Hc. simpl.
      repeat split; assumption.
Qed.

Lemma replace_nonword_collapsed (s : string) :
  Spec.collapsed s (Str.replace_nonword s).
Proof.
  unfold Str.replace_nonword.
  remember (String.length s) as n eqn:Hn.
  assert (Hle : String.length s <= n) by lia. clear Hn.
  revert s Hle. induction n as [|n IH]; intros s Hle.
  - destruct s; [constructor | simpl in Hle; lia].
  - destruct s as [|c s]; [constructor|]. simpl in Hle.
    simpl. destruct (Str.is_word c) eqn:Hc.
    + apply Spec.collapsed_word; [exact Hc | apply IH; lia].
    + destruct (replace_nonword_run s) as (run & rest & -> & Hrun & Hrest & Heq).
      rewrite Heq.
      change (String c (run ++ rest)) with (String c run ++ rest).
      apply Spec.collapsed_run.
      * discriminate.
      * simpl. rewrite Hc. exact Hrun.
      * exact Hrest.
      * apply IH. rewrite length_append in Hle. lia.
Qed.

Lemma camel_folded (s : string) : Spec.folded s (Str.camel s).
Proof.
  enough (H : Spec.folded s (Str.camel s)
              /\ forall c, Spec.folded (String c s) (Str.camel (String c s)))
    by apply H.
  induction s as [|d s [IH1 IH2]].
  - split; [constructor|]. intros c. simpl.
    apply Spec.folded_keep; [apply andb_false_r | constructor].
  - split; [apply IH2|]. intros c.
    change (Str.camel (String c (String d s)))
      with (if Ascii.eqb c "_" && Str.is_lower d
            then String (Str.upper d) (Str.camel s)
            else String c (Str.camel (String d s))).
    destruct (Ascii.eqb c "_" && Str.is_lower d) eqn:E.
    + apply andb_true_iff in E as [Hc Hd]. apply Ascii.eqb_eq in Hc. subst c.
      apply Spec.folded_pair; assumption.
    + apply Spec.folded_keep; [exact E | apply IH2].
Qed.

Lemma collapsed_functional (s t : string) :
  Spec.collapsed s t -> Str.replace_nonword s = t.
Proof.
  intros H. induction H as [|c s t Hc H IH|run s t Hne Hrun Hs H IH].
  - reflexivity.
  - unfold Str.replace_nonword in *. simpl. rewrite Hc, IH. reflexivity.
  - unfold Str.replace_nonword in *.
    destruct run as [|c run]; [contradiction|]. simpl in Hrun.
    apply andb_true_iff in Hrun as [Hc Hrun]. apply negb_true_iff in Hc.
    simpl. rewrite Hc. f_equal. rewrite <- IH. clear - Hrun Hs.
    induction run as [|x run IHr]; simpl.
    + destruct s as [|y s]; [reflexivity|]. simpl in *. rewrite Hs. reflexivity.
    + simpl in Hrun. apply andb_true_iff in Hrun as [Hx Hrun].
      apply negb_true_iff in Hx. rewrite Hx. apply IHr. exact Hrun.
Qed.

Lemma folded_functional (s t : string) : Spec.folded s t -> Str.camel s = t.
Proof.
  intros H. induction H as [|c s t Hc H IH|c s t Hc H IH].
  - reflexivity.
  - change (Str.camel (String "_" (String c s)))
      with (if Ascii.eqb "_" "_" && Str.is_lower c
            then String (Str.upper c) (Str.camel s)
            else String "_" (Str.camel (String c s))).
    rewrite Hc, IH. reflexivity.
  - destruct s as [|d s].
    + inversion H; subst. reflexivity.
    + change (Str.camel (String c (String d s)))
        with (if Ascii.eqb c "_" && Str.is_lower d
              then String (Str.upper d) (Str.camel s)
              else String c (Str.camel (String d s))).
      simpl in Hc. rewrite Hc, IH. reflexivity.
Qed.

(** C4, as the script behaves.  The name of the function and the name of
    its file are computed by the same rule and are equal.  The rule starts
    from [operationId] when that is a non-empty string, and otherwise from
    the method followed by the route with every maximal run of non-word
    characters collapsed to one underscore; it then folds every underscore
    followed by a lower-case letter into the capital letter. *)
Theorem identifier_and_storage_key (route method : string)
  (operation operationId : JValue) :
  getProp operation "operationId" = Ok operationId ->
  (truthy operationId = true -> exists id, operationId = JStr id) ->
  exists base name,
    functionName route method operation = Ok name
    /\ fileName route method operation = Ok name
    /\ (forall id, operationId = JStr id -> id <> EmptyString -> base = id)
    /\ (truthy operationId = false ->
        exists collapsed,
          Spec.collapsed route collapsed /\ base = method ++ collapsed)
    /\ Spec.folded base name.
Proof.
  intros Hid Hstr.
  exists (if truthy operationId then toStr operationId
          else method ++ Str.replace_nonword route).
  exists (Str.camel (if truthy operationId then toStr operationId
                     else method ++ Str.replace_nonword route)).
  assert (Hname : functionName route method operation
                  = Ok (Str.camel (if truthy operationId then toStr operationId
                                   else method ++ Str.replace_nonword route))).
  { unfold functionName. rewrite Hid. simpl. unfold or_else.
    destruct (truthy operationId) eqn:Ht.
    - destruct (Hstr eq_refl) as [id ->]. reflexivity.
    - reflexivity. }
  split; [exact Hname|]. split; [exact Hname|]. split; [|split].
  - intros id -> Hne. rewrite (nonempty_truthy _ Hne). reflexivity.
  - intros Hfalsy. rewrite Hfalsy. exists (Str.replace_nonword route).
    split; [apply replace_nonword_collapsed | reflexivity].
  - apply camel_folded.
Qed.

Lemma identifier_and_storage_key_witness :
  exists base name,
    functionName "/users/{id}/pets" "get" (JObj [("summary", JStr "Pets")]) = Ok name
    /\ fileName "/users/{id}/pets" "get" (JObj [("summary", JStr "Pets")]) = Ok name
    /\ (forall id, JUndefined = JStr id -> id <> EmptyString -> base = id)
    /\ (truthy JUndefined = false ->
        exists collapsed,
          Spec.collapsed "/users/{id}/pets" collapsed /\ base = "get" ++ collapsed)
    /\ Spec.folded base name.
Proof.
  apply (identifier_and_storage_key "/users/{id}/pets" "get"
           (JObj [("summary", JStr "Pets")]) JUndefined).
  - reflexivity.
  - discriminate.
Defined.

Example naming_examples :
  functionName "/users/{id}/pets" "get" (JObj []) = Ok "getUsersIdPets"
  /\ fileName "/users/{id}/pets" "get" (JObj []) = Ok "getUsersIdPets"
  /\ functionName "/users" "get" (JObj [("operationId", JStr "list_all_users")])
     = Ok "listAllUsers"
  /\ functionName "/users" "get" (JObj [("operationId", JStr EmptyString)]) = Ok "getUsers"
  /\ functionName "/users" "get" (JObj [("operationId", int 7)]) = Throw TypeError.
Proof. repeat split. Qed.

(** C4, as the specification states it, fails: an underscore followed by a capital
    letter is a pair of an underscore and a letter, and the script keeps
    both characters. *)
Lemma capital_after_underscore_is_kept :
  functionName "/Users" "get" (JObj []) = Ok "get_Users"
  /\ fileName "/Users" "get" (JObj []) = Ok "get_Users"
  /\ Spec.fold_letter_pairs ("get" ++ Str.replace_nonword "/Users") = "getUsers".
Proof. repeat split. Qed.

(** ** Object schemas *)

Lemma insert_by_index_perm (kv : string * JValue) (l : list (string * JValue)) :
  Permutation (insert_by_index kv l) (kv :: l).
Proof.
  induction l as [|kv' l IH]; simpl; [apply Permutation_refl|].
  destruct (index_of_key kv <=? index_of_key kv')%N; [apply Permutation_refl|].
  eapply perm_trans; [apply perm_skip, IH | apply perm_swap].
Qed.

Lemma sort_by_index_perm (l : list (string * JValue)) :
  Permutation (sort_by_index l) l.
Proof.
  induction l as [|kv l IH]; simpl; [constructor|].
  eapply perm_trans; [apply insert_by_index_perm | apply perm_skip, IH].
Qed.

Lemma insert_by_index_sorted (kv : string * JValue) (l : list (string * JValue)) :
  Sorted Spec.by_index l -> Sorted Spec.by_index (insert_by_index kv l).
Proof.
  induction l as [|kv' l IH]; intros Hs; simpl.
  - repeat constructor.
  - destruct (index_of_key kv <=? index_of_key kv')%N eqn:E.
    + constructor; [exact Hs|]. constructor. apply N.leb_le. exact E.
    + apply N.leb_gt in E. inversion Hs as [|x l' Hs' Hhd]; subst.
      constructor; [apply IH; exact Hs'|].
      destruct l as [|kv'' l]; simpl.
      * constructor. unfold Spec.by_index. lia.
      * destruct (index_of_key kv <=? index_of_key kv'')%N.
        -- constructor. unfold Spec.by_index. lia.
        -- inversion Hhd; subst. constructor. assumption.
Qed.

Lemma sort_by_index_sorted (l : list (string * JValue)) :
  Sorted Spec.by_index (sort_by_index l).
Proof.
  induction l as [|kv l IH]; simpl; [constructor|].
  apply insert_by_index_sorted. exact IH.
Qed.

Lemma filter_split_perm {A : Type} (p : A -> bool) (l : list A) :
  Permutation (filter p l ++ filter (fun a => negb (p a)) l) l.
Proof.
  induction l as [|a l IH]; simpl; [constructor|].
  destruct (p a); simpl.
  - apply perm_skip, IH.
  - apply Permutation_sym. eapply perm_trans.
    + apply perm_skip, Permutation_sym, IH.
    + apply Permutation_middle.
Qed.

Lemma own_entries_perm (kvs : list (string * JValue)) :
  Permutation (own_entries kvs) kvs.
Proof.
  unfold own_entries. eapply perm_trans; [|apply (filter_split_perm is_index_key)].
  apply Permutation_app_tail, sort_by_index_perm.
Qed.

Lemma own_entries_no_index (kvs : list (string * JValue)) :
  forallb Spec.not_index_key kvs = true -> own_entries kvs = kvs.
Proof.
  intros H. unfold own_entries.
  assert (H1 : filter is_index_key kvs = []).
  { induction kvs as [|kv kvs IH]; [reflexivity|]. simpl in *.
    apply andb_true_iff in H as [Hkv H]. unfold Spec.not_index_key in Hkv.
    apply negb_true_iff in Hkv. rewrite Hkv. apply IH, H. }
  assert (H2 : filter (fun kv => negb (is_index_key kv)) kvs = kvs).
  { induction kvs as [|kv kvs IH]; [reflexivity|]. simpl in *.
    apply andb_true_iff in H as [Hkv H]. unfold Spec.not_index_key in Hkv.
    rewrite Hkv. f_equal. apply IH; [exact H|].
    apply negb_true_iff in Hkv. rewrite Hkv in H1. exact H1. }
  rewrite H1, H2. reflexivity.
Qed.

Lemma includes_array (required : list JValue) (key : string) :
  existsb (fun e => is_str e key) required = true <-> In (JStr key) required.
Proof.
  rewrite existsb_exists. split.
  - intros (e & Hin & He). destruct e; try discriminate.
    simpl in He. apply String.eqb_eq in He. subst. exact Hin.
  - intros Hin. exists (JStr key). split; [exact Hin|]. simpl. apply String.eqb_refl.
Qed.

Lemma schemaToTS_object (n : nat) (schema doc ref properties declared : JValue) :
  getProp schema "$ref" = Ok ref -> truthy ref = false ->
  getProp schema "type" = Ok (JStr "object") ->
  getProp schema "properties" = Ok properties ->
  getProp schema "required" = Ok declared ->
  schemaToTS (S n) schema doc
  = if negb (truthy properties) then Ok "Record<string, any>"
    else
      kvs <- entries properties ;;
      props <- mapM (fun kv =>
                       isRequired <- includes (or_else declared (JArr [])) (fst kv) ;;
                       type <- schemaToTS n (snd kv) doc ;;
                       Ok (member (fst kv) isRequired type)) kvs ;;
      Ok ("{" ++ Str.join "; " props ++ "}").
Proof.
  intros Href Hfalsy Htype Hprops Hreq.
  rewrite schemaToTS_S. unfold synthesize_with.
  rewrite (has_type_truthy _ _ Htype), Href.
  change (bind (Ok ref) ?k) with (k ref). cbv beta.
  rewrite Hfalsy, Htype.
  change (bind (Ok (JStr "object")) ?k) with (k (JStr "object")). cbv beta.
  change (is_str (JStr "object") "string") with false.
  change (is_str (JStr "object") "integer") with false.
  change (is_str (JStr "object") "number") with false.
  change (is_str (JStr "object") "boolean") with false.
  change (is_str (JStr "object") "array") with false.
  change (is_str (JStr "object") "object") with true.
  cbv iota. simpl orb. cbv iota.
  rewrite Hprops, Hreq. reflexivity.
Qed.

(** C5, as the script behaves.  An object schema without a property map is
    [Record<string, any>].  With a property map, the record type has one
    member for every declared property, in the order in which JavaScript
    enumerates the map: the names that are array indices first, by
    ascending number, then the other names in declared order (so the
    declared order itself when no name is an array index).  A member has
    the optional marker exactly when its name is not in [required]. *)
Theorem object_record_type (fuel : nat) (doc schema ref properties declared : JValue) :
  getProp schema "$ref" = Ok ref -> truthy ref = false ->
  getProp schema "type" = Ok (JStr "object") ->
  getProp schema "properties" = Ok properties ->
  getProp schema "required" = Ok declared ->
  (truthy properties = false ->
   schemaToTS (S fuel) schema doc = Ok "Record<string, any>")
  /\ (forall kvs required types,
        properties = JObj kvs ->
        or_else declared (JArr []) = JArr required ->
        Forall2 (fun kv type => schemaToTS fuel (snd kv) doc = Ok type)
          (own_entries kvs) types ->
        exists numbered members,
          schemaToTS (S fuel) schema doc = Ok ("{" ++ Str.join "; " members ++ "}")
          /\ Forall2 (Spec.record_member required)
               (combine (own_entries kvs) types) members
          /\ own_entries kvs = (numbered ++ filter Spec.not_index_key kvs)%list
          /\ Permutation numbered (filter is_index_key kvs)
          /\ Sorted Spec.by_index numbered
          /\ Permutation (own_entries kvs) kvs
          /\ (forallb Spec.not_index_key kvs = true -> own_entries kvs = kvs)).
Proof.
  intros Href Hfalsy Htype Hprops Hreq.
  pose proof (schemaToTS_object fuel schema doc ref properties declared
                Href Hfalsy Htype Hprops Hreq) as Hstep.
  split.
  - intros Hnone. rewrite Hstep, Hnone. reflexivity.
  - intros kvs required types -> Hrequired Htypes.
    rewrite Hrequired in Hstep.
    change (negb (truthy (JObj kvs))) with false in Hstep. cbv iota in Hstep.
    change (entries (JObj kvs)) with (Ok (own_entries kvs)) in Hstep.
    change (bind (Ok (own_entries kvs)) ?k) with (k (own_entries kvs)) in Hstep.
    cbv beta in Hstep.
    exists (sort_by_index (filter is_index_key kvs)).
    exists (map (fun kvt => member (fst (fst kvt))
                              (existsb (fun e => is_str e (fst (fst kvt))) required)
                              (snd kvt))
              (combine (own_entries kvs) types)).
    split; [|split; [|split; [|split; [|split; [|split]]]]].
    + rewrite Hstep.
      assert (Hm : mapM (fun kv =>
                           isRequired <- includes (JArr required) (fst kv) ;;
                           type <- schemaToTS fuel (snd kv) doc ;;
                           Ok (member (fst kv) isRequired type)) (own_entries kvs)
                   = Ok (map (fun kvt => member (fst (fst kvt))
                                 (existsb (fun e => is_str e (fst (fst kvt))) required)
                                 (snd kvt))
                           (combine (own_entries kvs) types))).
      { apply mapM_Ok_Forall2. clear Hstep.
        induction Htypes as [|kv type kvs' types' Hkv _ IH]; simpl; constructor.
        - cbn [includes bind]. rewrite Hkv. reflexivity.
        - exact IH. }
      rewrite Hm. reflexivity.
    + clear Hstep. induction Htypes as [|kv type kvs' types' Hkv _ IH]; simpl;
        constructor; [|exact IH].
      destruct kv as [key value]. unfold Spec.record_member, member. simpl.
      destruct (existsb (fun e => is_str e key) required) eqn:E.
      * left. split; [apply includes_array; exact E | reflexivity].
      * right. split; [|reflexivity].
        intros Hin. apply includes_array in Hin. congruence.
    + reflexivity.
    + apply sort_by_index_perm.
    + apply sort_by_index_sorted.
    + apply own_entries_perm.
    + apply own_entries_no_index.
Qed.

Lemma object_record_type_witness :
  (truthy (JObj [("name", Sample.of_type "string"); ("age", Sample.of_type "integer")])
   = false ->
   schemaToTS 2
     (JObj [("type", JStr "object");
            ("properties",
              JObj [("name", Sample.of_type "string"); ("age", Sample.of_type "integer")]);
            ("required", JArr [JStr "name"])]) (JObj [])
   = Ok "Record<string, any>")
  /\ exists numbered members,
       schemaToTS 2
         (JObj [("type", JStr "object");
                ("properties",
                  JObj [("name", Sample.of_type "string");
                        ("age", Sample.of_type "integer")]);
                ("required", JArr [JStr "name"])]) (JObj [])
       = Ok ("{" ++ Str.join "; " members ++ "}")
       /\ Forall2 (Spec.record_member [JStr "name"])
            (combine
               (own_entries [("name", Sample.of_type "string");
                             ("age", Sample.of_type "integer")])
               ["string"; "number"]) members
       /\ own_entries [("name", Sample.of_type "string"); ("age", Sample.of_type "integer")]
          = (numbered
             ++ filter Spec.not_index_key
                  [("name", Sample.of_type "string"); ("age", Sample.of_type "integer")])%list
       /\ Permutation numbered
            (filter is_index_key
               [("name", Sample.of_type "string"); ("age", Sample.of_type "integer")])
       /\ Sorted Spec.by_index numbered
       /\ Permutation
            (own_entries [("name", Sample.of_type "string");
                          ("age", Sample.of_type "integer")])
            [("name", Sample.of_type "string"); ("age", Sample.of_type "integer")]
       /\ (forallb Spec.not_index_key
             [("name", Sample.of_type "string"); ("age", Sample.of_type "integer")] = true ->
           own_entries [("name", Sample.of_type "string"); ("age", Sample.of_type "integer")]
           = [("name", Sample.of_type "string"); ("age", Sample.of_type "integer")]).
Proof.
  pose proof (object_record_type 1 (JObj [])
    (JObj [("type", JStr "object");
           ("properties",
             JObj [("name", Sample.of_type "string"); ("age", Sample.of_type "integer")]);
           ("required", JArr [JStr "name"])])
    JUndefined
    (JObj [("name", Sample.of_type "string"); ("age", Sample.of_type "integer")])
    (JArr [JStr "name"]) eq_refl eq_refl eq_refl eq_refl eq_refl) as [Hnone Hsome].
  split; [exact Hnone|].
  apply (Hsome [("name", Sample.of_type "string"); ("age", Sample.of_type "integer")]
           [JStr "name"] ["string"; "number"] eq_refl eq_refl).
  repeat constructor.
Defined.

Example object_examples :
  schemaToTS 1 (Sample.of_type "object") (JObj []) = Ok "Record<string, any>"
  /\ schemaToTS 2
       (JObj [("type", JStr "object");
              ("properties",
                JObj [("name", Sample.of_type "string"); ("age", Sample.of_type "integer")]);
              ("required", JArr [JStr "name"])]) (JObj [])
     = Ok "{name: string; age?: number}".
Proof. repeat split. Qed.

(** C5, as the specification states it, fails: the property [1] is declared after
    [b], and the record type lists it first. *)
Lemma numbered_property_comes_first :
  getProp Sample.numbered "properties"
  = Ok (JObj [("b", Sample.of_type "string"); ("1", Sample.of_type "string")])
  /\ schemaToTS 2 Sample.numbered (JObj []) = Ok "{1?: string; b?: string}".
Proof. repeat split. Qed.

(** ** Termination *)

Lemma mapM_not_OutOfFuel {A B : Type} (f : A -> result B) (l : list A) :
  (forall a, In a l -> f a <> OutOfFuel) -> mapM f l <> OutOfFuel.
Proof.
  induction l as [|a l IH]; intros H; simpl; [discriminate|].
  apply bind_not_OutOfFuel; [apply H; left; reflexivity|].
  intros b _. apply bind_not_OutOfFuel; [|discriminate].
  apply IH. intros a' Ha'. apply H. right. exact Ha'.
Qed.

Lemma includes_has_includes (required : JValue) (key : string) (b : bool) :
  includes required key = Ok b -> has_includes required = true.
Proof. destruct required; simpl; intros H; try discriminate; reflexivity. Qed.

(** One call finishes when the calls it makes finish. *)
Lemma synthesize_with_finishes (rec : JValue -> result string) (schema doc : JValue) :
  (forall x, In x (callees schema doc) -> rec x <> OutOfFuel) ->
  synthesize_with rec schema doc <> OutOfFuel.
Proof.
  intros Hrec. unfold synthesize_with.
  destruct (negb (truthy schema)); [discriminate|].
  apply bind_not_OutOfFuel; [auto with fuel|].
  intros ref Href. unfold callees in Hrec. rewrite Href in Hrec.
  destruct (truthy ref).
  - destruct ref; try discriminate.
    apply bind_not_OutOfFuel; [unfold resolveRef; auto with fuel|].
    intros target Htarget. apply Hrec. rewrite Htarget. left. reflexivity.
  - apply bind_not_OutOfFuel; [auto with fuel|].
    intros type Htype. rewrite Htype in Hrec.
    destruct (is_str type "string"); [discriminate|].
    destruct (is_str type "integer" || is_str type "number"); [discriminate|].
    destruct (is_str type "boolean"); [discriminate|].
    destruct (is_str type "array").
    { apply bind_not_OutOfFuel; [auto with fuel|].
      intros items Hitems. apply bind_not_OutOfFuel; [|discriminate].
      apply Hrec. rewrite Hitems. left. reflexivity. }
    destruct (is_str type "object"); [|discriminate].
    apply bind_not_OutOfFuel; [auto with fuel|].
    intros properties Hprops. rewrite Hprops in Hrec.
    destruct (truthy properties); [|discriminate]. cbn [negb].
    apply bind_not_OutOfFuel; [auto with fuel|].
    intros declared Hdeclared. rewrite Hdeclared in Hrec. cbv zeta.
    apply bind_not_OutOfFuel; [auto with fuel|].
    intros kvs Hkvs. rewrite Hkvs in Hrec.
    apply bind_not_OutOfFuel; [|discriminate].
    apply mapM_not_OutOfFuel. intros kv Hkv.
    apply bind_not_OutOfFuel; [auto with fuel|].
    intros isRequired Hincl. apply bind_not_OutOfFuel; [|discriminate].
    apply Hrec. rewrite (includes_has_includes _ _ _ Hincl). cbn [andb].
    apply in_map. exact Hkv.
Qed.

Lemma finishes_at (doc v : JValue) (n : nat) :
  schemaToTS n v doc <> OutOfFuel -> finishes doc v.
Proof.
  intros H. exists n. intros m Hle.
  rewrite (schemaToTS_more_fuel doc n m Hle v _ eq_refl H). exact H.
Qed.

(** Finitely many nodes that finish do so with a common amount of fuel. *)
Lemma finishes_together (doc : JValue) (l : list JValue) :
  (forall x, In x l -> finishes doc x) ->
  exists n, forall x, In x l -> schemaToTS n x doc <> OutOfFuel.
Proof.
  induction l as [|a l IH]; intros H.
  - exists 0. intros x [].
  - destruct (H a (or_introl eq_refl)) as [na Ha].
    destruct IH as [nl Hl]; [intros x Hx; apply H; right; exact Hx|].
    exists (Nat.max na nl). intros x [<-|Hx].
    + apply Ha. lia.
    + rewrite (schemaToTS_more_fuel doc nl (Nat.max na nl) (Nat.le_max_r _ _)
                 x _ eq_refl (Hl x Hx)).
      apply Hl, Hx.
Qed.

Lemma finishes_callees (doc v : JValue) :
  (forall x, In x (callees v doc) -> finishes doc x) -> finishes doc v.
Proof.
  intros H. destruct (finishes_together doc _ H) as [n Hn].
  apply (finishes_at doc v (S n)). rewrite schemaToTS_S.
  apply synthesize_with_finishes. exact Hn.
Qed.

Lemma plain_any (doc v : JValue) : plain v = true -> schemaToTS 1 v doc = Ok "any".
Proof.
  destruct v as [| |b|nonzero text|s|l|kvs]; try discriminate; intros _;
    try reflexivity.
  - destruct b; reflexivity.
  - destruct nonzero; reflexivity.
  - destruct s; reflexivity.
Qed.

Lemma finishes_plain (doc v : JValue) : plain v = true -> finishes doc v.
Proof.
  intros H. apply (finishes_at doc v 1). rewrite (plain_any doc v H). discriminate.
Qed.

(** *** The children of a value *)

Lemma own_child (kvs : list (string * JValue)) (k : string) :
  own kvs k = JUndefined \/ In (k, own kvs k) kvs.
Proof.
  induction kvs as [|[k' v] kvs IH]; simpl; [left; reflexivity|].
  destruct (String.eqb_spec k' k) as [->|Hne].
  - right. left. reflexivity.
  - destruct IH as [IH|IH]; [left; exact IH | right; right; exact IH].
Qed.

Lemma list_sum_In {A : Type} (f : A -> nat) (a : A) (l : list A) :
  In a l -> f a <= list_sum (map f l).
Proof.
  induction l as [|b l IH]; intros H; [contradiction|]. simpl.
  destruct H as [<-|H]; [lia | specialize (IH H); lia].
Qed.

Lemma entry_size (kvs : list (string * JValue)) (kv : string * JValue) :
  In kv kvs -> jsize (snd kv) < jsize (JObj kvs).
Proof.
  intros H. simpl.
  pose proof (list_sum_In (fun kv => jsize (snd kv)) kv kvs H). simpl in *. lia.
Qed.

Lemma elem_size (elems : list JValue) (x : JValue) :
  In x elems -> jsize x < jsize (JArr elems).
Proof.
  intros H. simpl. pose proof (list_sum_In jsize x elems H). lia.
Qed.

Lemma own_size (kvs : list (string * JValue)) (k : string) :
  own kvs k = JUndefined \/ jsize (own kvs k) < jsize (JObj kvs).
Proof.
  destruct (own_child kvs k) as [H|H]; [left; exact H | right].
  apply (entry_size kvs (k, own kvs k) H).
Qed.

Lemma number_from_In {A : Type} (l : list A) (i : nat) (kv : string * A) :
  In kv (number_from i l) -> In (snd kv) l.
Proof.
  revert i. induction l as [|a l IH]; intros i H; simpl in *; [contradiction|].
  destruct H as [<-|H]; [left; reflexivity | right; apply (IH (S i)); exact H].
Qed.

Lemma chars_scalar (s : string) (x : JValue) : In x (chars s) -> scalar x = true.
Proof.
  induction s as [|c s IH]; simpl; [contradiction|].
  intros [<-|H]; [reflexivity | apply IH; exact H].
Qed.

Lemma jsize_pos (x : JValue) : 1 <= jsize x.
Proof. destruct x; simpl; lia. Qed.

Lemma scalar_plain (x : JValue) : scalar x = true -> plain x = true.
Proof. destruct x; simpl; congruence. Qed.

(** A schema of a property map is a value without parts or a smaller
    value, and the references it follows are among those of the map. *)
Lemma entries_child (p : JValue) (kvs : list (string * JValue)) (kv : string * JValue) :
  entries p = Ok kvs -> In kv kvs ->
  scalar (snd kv) = true
  \/ (jsize (snd kv) < jsize p /\ incl (followed (snd kv)) (followed_in p)).
Proof.
  destruct p as [| |b|nonzero text|s|l|props]; simpl; intros H Hin;
    try discriminate; injection H as <-; try contradiction.
  - left. apply (chars_scalar s). apply (number_from_In _ 0). exact Hin.
  - right. apply (number_from_In _ 0) in Hin. split; [apply elem_size; exact Hin|].
    intros r Hr. apply in_flat_map. exists (snd kv). split; assumption.
  - right. apply (Permutation_in _ (own_entries_perm props)) in Hin.
    split; [apply entry_size; exact Hin|].
    intros r Hr. apply in_flat_map. exists kv. split; assumption.
Qed.

(** *** The references that synthesis follows *)

Lemma lookup_map {A : Type} (f : JValue -> A) (none : A)
  (kvs : list (string * JValue)) (k : string) :
  f JUndefined = none ->
  lookup none (map (fun kv => (fst kv, f (snd kv))) kvs) k = f (own kvs k).
Proof.
  intros Hnone. induction kvs as [|[k' v] kvs IH]; simpl; [symmetry; exact Hnone|].
  destruct (String.eqb k' k); [reflexivity | exact IH].
Qed.

Lemma followed_JObj (kvs : list (string * JValue)) :
  followed (JObj kvs)
  = if truthy (own kvs "$ref") then
      match own kvs "$ref" with
      | JStr r => [r]
      | _ => []
      end
    else if is_str (own kvs "type") "array" then followed (own kvs "items")
    else if is_str (own kvs "type") "object" then
      if truthy (own kvs "properties")
         && has_includes (or_else (own kvs "required") (JArr []))
      then followed_in (own kvs "properties")
      else []
    else [].
Proof.
  rewrite <- (lookup_map followed [] kvs "items" eq_refl).
  rewrite <- (lookup_map followed_in [] kvs "properties" eq_refl).
  reflexivity.
Qed.

(** A node can be synthesized when the references it follows can. *)
Lemma finishes_followed (doc : JValue) (n : nat) :
  forall v,
    jsize v <= n ->
    (forall r, In r (followed v) -> ref_ok doc r) ->
    finishes doc v.
Proof.
  induction n as [|n IH]; intros v Hsize Hrefs.
  - destruct v; simpl in Hsize; lia.
  - destruct (plain v) eqn:Hplain; [apply finishes_plain; exact Hplain|].
    destruct v as [| | | | | |kvs]; try discriminate.
    rewrite followed_JObj in Hrefs.
    apply finishes_callees. intros x Hx. unfold callees in Hx.
    change (getProp (JObj kvs) ?k) with (Ok (own kvs k)) in Hx.
    cbv beta iota in Hx.
    destruct (truthy (own kvs "$ref")).
    + destruct (own kvs "$ref") as [| | | |r| |]; try contradiction.
      destruct (resolveRef r doc) as [target| |] eqn:Htarget; try contradiction.
      destruct Hx as [<-|[]].
      apply (Hrefs r); [left; reflexivity | exact Htarget].
    + destruct (is_str (own kvs "type") "array").
      { destruct Hx as [<-|[]].
        destruct (own_size kvs "items") as [Hnone|Hless].
        - rewrite Hnone. apply finishes_plain. reflexivity.
        - apply IH; [lia | exact Hrefs]. }
      destruct (is_str (own kvs "type") "object"); [|contradiction].
      destruct (truthy (own kvs "properties")
                && has_includes (or_else (own kvs "required") (JArr [])));
        [|contradiction].
      destruct (entries (own kvs "properties")) as [kvs'| |] eqn:Hkvs;
        try contradiction.
      apply in_map_iff in Hx as (kv & <- & Hkv).
      destruct (entries_child _ kvs' kv Hkvs Hkv) as [Hscalar|[Hless Hincl]];
        [apply finishes_plain, scalar_plain; exact Hscalar|].
      destruct (own_size kvs "properties") as [Hnone|Hprops].
      * rewrite Hnone in Hkvs. discriminate.
      * apply IH; [lia|]. intros r Hr. apply Hrefs, Hincl, Hr.
Qed.

Lemma in_scope_In (scope : list string) (r : string) :
  in_scope scope r = true -> In r scope.
Proof.
  unfold in_scope. intros H. apply existsb_exists in H as (r' & Hin & Heq).
  apply String.eqb_eq in Heq. subst r'. exact Hin.
Qed.

Lemma ranked_refs_ok (rank : string -> nat) (doc : JValue) (scope : list string) :
  ranked rank doc scope = true ->
  forall n r, rank r < n -> In r scope -> ref_ok doc r.
Proof.
  intros Hranked. induction n as [|n IH]; intros r Hlt Hin target Htarget; [lia|].
  apply (finishes_followed doc (jsize target) target (le_n _)).
  intros r' Hr'.
  unfold ranked in Hranked. rewrite forallb_forall in Hranked.
  specialize (Hranked r Hin). rewrite Htarget in Hranked.
  rewrite forallb_forall in Hranked. specialize (Hranked r' Hr').
  apply andb_prop in Hranked as [Hscope Hlower].
  apply Nat.ltb_lt in Hlower.
  apply IH; [lia | apply in_scope_In; exact Hscope].
Qed.

(** C1, as the script behaves.  Synthesis of a schema finishes, from some
    amount of fuel on with the same type or exception, when the references
    it follows lie in a set of references that can be ranked: the node
    behind a reference of the set follows references of the set only, each
    of a lower rank.  What else the document holds, and what stands under
    keys that synthesis does not read, has no influence. *)
Theorem synthesis_finishes_when_ranked (rank : string -> nat) (doc schema : JValue)
  (scope : list string) :
  ranked rank doc scope = true ->
  forallb (in_scope scope) (followed schema) = true ->
  exists fuel r,
    r <> OutOfFuel /\ forall m, fuel <= m -> schemaToTS m schema doc = r.
Proof.
  intros Hranked Hscope.
  assert (Hfin : finishes doc schema).
  { apply (finishes_followed doc (jsize schema) schema (le_n _)).
    intros r Hr. apply (ranked_refs_ok rank doc scope Hranked (S (rank r)) r (le_n _)).
    rewrite forallb_forall in Hscope. apply in_scope_In, Hscope, Hr. }
  destruct Hfin as [n Hn].
  exists n, (schemaToTS n schema doc). split; [apply Hn, le_n|].
  intros m Hle.
  apply (schemaToTS_more_fuel doc n m Hle schema _ eq_refl (Hn n (le_n _))).
Qed.

(** In a document that holds the linked node as well, the schema [Pet]
    follows [Tags], which follows [Tag]. *)
Lemma synthesis_finishes_when_ranked_witness :
  exists fuel r,
    r <> OutOfFuel
    /\ forall m, fuel <= m -> schemaToTS m Sample.pet Sample.zoo_doc = r.
Proof.
  apply (synthesis_finishes_when_ranked Sample.pets_rank Sample.zoo_doc Sample.pet
           Sample.pets_scope).
  - vm_compute. reflexivity.
  - vm_compute. reflexivity.
Defined.

Example pet_type_in_zoo :
  schemaToTS 5 Sample.pet Sample.zoo_doc
  = Ok "{name: string; age?: number; tags?: Array<string>}".
Proof. reflexivity. Qed.

Example examples_are_not_followed :
  followed (JObj [("type", JStr "string");
                  ("example", Sample.ref_to "#/components/schemas/Node")]) = [].
Proof. reflexivity. Qed.

Example pet_type :
  schemaToTS 5 Sample.pet Sample.pets_doc
  = Ok "{name: string; age?: number; tags?: Array<string>}".
Proof. reflexivity. Qed.

Lemma node_step (n : nat) :
  schemaToTS (S n) (Sample.ref_to "#/components/schemas/Node") Sample.node_doc
  = schemaToTS n Sample.node Sample.node_doc.
Proof.
  rewrite (schemaToTS_ref n (Sample.ref_to "#/components/schemas/Node")
             Sample.node_doc "#/components/schemas/Node" eq_refl);
    [reflexivity | discriminate].
Qed.

Lemma node_never_finishes (n : nat) :
  schemaToTS n Sample.node Sample.node_doc = OutOfFuel
  /\ schemaToTS n (Sample.ref_to "#/components/schemas/Node") Sample.node_doc
     = OutOfFuel.
Proof.
  induction n as [|n [IHnode IHref]]; [split; reflexivity|].
  split; [|rewrite node_step; exact IHnode].
  rewrite (schemaToTS_object n Sample.node Sample.node_doc JUndefined
             (JObj [("value", Sample.of_type "string");
                    ("next", Sample.ref_to "#/components/schemas/Node")])
             JUndefined eq_refl eq_refl eq_refl eq_refl eq_refl).
  change (negb (truthy (JObj ?kvs))) with false. cbv iota.
  change (entries (JObj ?kvs)) with (Ok (own_entries kvs)).
  change (own_entries [("value", Sample.of_type "string");
                       ("next", Sample.ref_to "#/components/schemas/Node")])
    with [("value", Sample.of_type "string");
          ("next", Sample.ref_to "#/components/schemas/Node")].
  cbn [bind mapM fst snd or_else truthy includes existsb].
  rewrite IHref.
  destruct (schemaToTS n (Sample.of_type "string") Sample.node_doc) eqn:E;
    try reflexivity.
  destruct n; [discriminate E|]. discriminate E.
Qed.

(** C1, as the specification states it, fails: the property [next] of this object
    refers to the object itself, and no amount of fuel lets its synthesis
    finish, with a type or with an exception. *)
Lemma self_reference_never_finishes :
  ~ exists fuel, schemaToTS fuel Sample.node Sample.node_doc <> OutOfFuel.
Proof.
  intros [fuel H]. apply H. apply node_never_finishes.
Qed.

Example node_is_not_ranked (rank : string -> nat) (scope : list string) :
  In "#/components/schemas/Node" scope -> ranked rank Sample.node_doc scope = false.
Proof.
  intros Hin. unfold ranked.
  destruct (forallb _ scope) eqn:E; [|reflexivity].
  rewrite forallb_forall in E. specialize (E _ Hin).
  change (resolveRef "#/components/schemas/Node" Sample.node_doc)
    with (Ok Sample.node) in E.
  change (followed Sample.node) with ["#/components/schemas/Node"] in E.
  cbn [forallb] in E. apply andb_prop in E as [E _].
  apply andb_prop in E as [_ E]. apply Nat.ltb_lt in E. lia.
Qed.

(** * Further properties of the script *)

(** ** The synthesizer *)

Lemma mapM_Ok_fields (rec : JValue -> result string) (required : JValue)
  (kvs : list (string * JValue)) (props : list string) :
  (forall x t, rec x = Ok t -> Shape.ts_type t) ->
  mapM (fun kv =>
          isRequired <- includes required (fst kv) ;;
          type <- rec (snd kv) ;;
          Ok (member (fst kv) isRequired type)) kvs = Ok props ->
  exists fields,
    props = map (fun field => member (fst (fst field)) (snd (fst field)) (snd field))
              fields
    /\ Forall (fun field => Shape.ts_type (snd field)) fields.
Proof.
  intros Hrec. revert props. induction kvs as [|kv kvs IH]; intros props H; simpl in H.
  - injection H as <-. exists []. split; [reflexivity | constructor].
  - unbind H as text Htext. unbind H as rest Hrest. injection H as <-.
    unbind Htext as isRequired Hreq. unbind Htext as type Htype.
    injection Htext as <-.
    destruct (IH rest Hrest) as (fields & -> & Hfields).
    exists ((fst kv, isRequired, type) :: fields). split; [reflexivity|].
    constructor; [apply (Hrec _ _ Htype) | exact Hfields].
Qed.

(** X1.  Whatever the schema and the document, a type that synthesis
    returns is [any], [string], [number], [boolean], [Record<string, any>],
    [Array<T>] for such a type [T], or a record of members [key: T] and
    [key?: T] for such types [T], joined by ["; "]. *)
Theorem synthesized_type_shape (fuel : nat) (schema doc : JValue) (type : string) :
  schemaToTS fuel schema doc = Ok type -> Shape.ts_type type.
Proof.
  revert schema type. induction fuel as [|n IH]; intros schema type H;
    [discriminate H|].
  rewrite schemaToTS_S in H. unfold synthesize_with in H.
  destruct (negb (truthy schema)); [injection H as <-; constructor|].
  unbind H as ref Href. destruct (truthy ref).
  - destruct ref; try discriminate H.
    unbind H as resolved Hres. apply (IH _ _ H).
  - unbind H as ty Hty.
    destruct (is_str ty "string"); [injection H as <-; constructor|].
    destruct (is_str ty "integer" || is_str ty "number");
      [injection H as <-; constructor|].
    destruct (is_str ty "boolean"); [injection H as <-; constructor|].
    destruct (is_str ty "array").
    { unbind H as items Hitems. unbind H as elem Helem. injection H as <-.
      apply Shape.ts_array. apply (IH _ _ Helem). }
    destruct (is_str ty "object"); [|injection H as <-; constructor].
    unbind H as properties Hprops.
    destruct (negb (truthy properties)); [injection H as <-; constructor|].
    unbind H as declared Hdecl. cbv zeta in H.
    unbind H as kvs Hkvs. unbind H as props Hmap. injection H as <-.
    destruct (mapM_Ok_fields (fun s => schemaToTS n s doc) _ kvs props
                (fun x t Hx => IH x t Hx) Hmap) as (fields & -> & Hfields).
    apply Shape.ts_record. exact Hfields.
Qed.

Lemma synthesized_type_shape_witness :
  Shape.ts_type "{name: string; age?: number; tags?: Array<string>}".
Proof.
  apply (synthesized_type_shape 5 Sample.pet Sample.pets_doc).
  vm_compute. reflexivity.
Defined.

Lemma falsy_reads (schema x : JValue) (k : string) :
  truthy schema = false -> getProp schema k = Ok x -> In k Shape.schema_keys ->
  x = JUndefined.
Proof.
  intros Hfalsy Hget Hk.
  destruct schema as [| |b|nonzero text|s|l|kvs]; simpl in *; try discriminate.
  - congruence.
  - congruence.
  - destruct s; [|discriminate].
    destruct Hk as [<-|[<-|[<-|[<-|[<-|[]]]]]]; simpl in Hget; congruence.
Qed.

Lemma getProp_Throw_falsy (v : JValue) (k : string) (e : error) :
  getProp v k = Throw e -> truthy v = false.
Proof.
  destruct v; simpl; try discriminate; try reflexivity.
  - destruct (array_index k); [destruct (String.get _ _)|destruct (String.eqb _ _)];
      discriminate.
  - destruct (array_index k); [|destruct (String.eqb _ _)]; discriminate.
Qed.

Lemma undefined_schema_keys_any (n : nat) (schema doc : JValue) :
  (forall k, In k Shape.schema_keys -> getProp schema k = Ok JUndefined) ->
  schemaToTS (S n) schema doc = Ok "any".
Proof.
  intros H. rewrite schemaToTS_S. unfold synthesize_with.
  destruct (negb (truthy schema)); [reflexivity|].
  rewrite (H "$ref") by (simpl; auto). simpl.
  rewrite (H "type") by (simpl; auto). reflexivity.
Qed.

(** X2.  Synthesis reads five keys of a schema and nothing else: two
    schemas on which [$ref], [type], [items], [properties] and [required]
    read the same have the same synthesis, whatever else they carry
    ([enum], [oneOf], [allOf], [anyOf], [nullable], [format], ...). *)
Theorem synthesis_reads_five_keys (fuel : nat) (schema schema' doc : JValue) :
  (forall k, In k Shape.schema_keys -> getProp schema k = getProp schema' k) ->
  schemaToTS fuel schema doc = schemaToTS fuel schema' doc.
Proof.
  intros Hsame. destruct fuel as [|n]; [reflexivity|].
  destruct (truthy schema) eqn:Ht, (truthy schema') eqn:Ht'.
  - rewrite !schemaToTS_S. unfold synthesize_with. rewrite Ht, Ht'. simpl negb.
    cbv iota.
    rewrite <- (Hsame "$ref"), <- (Hsame "type"), <- (Hsame "items"),
      <- (Hsame "properties"), <- (Hsame "required") by (simpl; auto 6).
    reflexivity.
  - assert (Hnone : forall k, In k Shape.schema_keys -> getProp schema k = Ok JUndefined).
    { intros k Hk. destruct (getProp schema' k) as [x| |] eqn:E.
      - rewrite (Hsame k Hk), E. f_equal. apply (falsy_reads schema' x k Ht' E Hk).
      - rewrite <- (Hsame k Hk) in E.
        rewrite (getProp_Throw_falsy _ _ _ E) in Ht. discriminate.
      - exfalso. apply (getProp_not_OutOfFuel schema' k E). }
    rewrite (undefined_schema_keys_any n schema doc Hnone).
    rewrite schemaToTS_S. unfold synthesize_with. rewrite Ht'. reflexivity.
  - assert (Hnone : forall k, In k Shape.schema_keys -> getProp schema' k = Ok JUndefined).
    { intros k Hk. destruct (getProp schema k) as [x| |] eqn:E.
      - rewrite <- (Hsame k Hk), E. f_equal. apply (falsy_reads schema x k Ht E Hk).
      - rewrite (Hsame k Hk) in E.
        rewrite (getProp_Throw_falsy _ _ _ E) in Ht'. discriminate.
      - exfalso. apply (getProp_not_OutOfFuel schema k E). }
    rewrite (undefined_schema_keys_any n schema' doc Hnone).
    rewrite schemaToTS_S. unfold synthesize_with. rewrite Ht. reflexivity.
  - rewrite !schemaToTS_S. unfold synthesize_with. rewrite Ht, Ht'. reflexivity.
Qed.

Lemma synthesis_reads_five_keys_witness :
  schemaToTS 1
    (JObj [("type", JStr "string"); ("enum", JArr [JStr "cat"; JStr "dog"]);
           ("oneOf", JArr [Sample.of_type "integer"])]) Sample.pets_doc
  = schemaToTS 1 (Sample.of_type "string") Sample.pets_doc.
Proof.
  apply synthesis_reads_five_keys.
  intros k [<-|[<-|[<-|[<-|[<-|[]]]]]]; reflexivity.
Defined.

Lemma mapM_all_Ok {A B : Type} (f : A -> result B) (l : list A) :
  (forall a, In a l -> exists b, f a = Ok b) -> exists bs, mapM f l = Ok bs.
Proof.
  induction l as [|a l IH]; intros H; simpl.
  - exists []. reflexivity.
  - destruct (H a (or_introl eq_refl)) as [b Hb].
    destruct IH as [bs Hbs]; [intros a' Ha'; apply H; right; exact Ha'|].
    exists (b :: bs). rewrite Hb. simpl. rewrite Hbs. reflexivity.
Qed.

Lemma tame_entry (kvs : list (string * JValue)) (kv : string * JValue) :
  Shape.tame (JObj kvs) = true -> In kv kvs -> Shape.tame (snd kv) = true.
Proof.
  simpl. intros H Hin. apply andb_true_iff in H as [_ H].
  rewrite forallb_forall in H. apply (H kv Hin).
Qed.

Lemma tame_own (kvs : list (string * JValue)) (k : string) :
  Shape.tame (JObj kvs) = true -> Shape.tame (own kvs k) = true.
Proof.
  intros H. destruct (own_child kvs k) as [E|Hin].
  - rewrite E. reflexivity.
  - apply (tame_entry kvs (k, own kvs k) H Hin).
Qed.

Lemma tame_entries (p : JValue) (kvs : list (string * JValue)) (kv : string * JValue) :
  entries p = Ok kvs -> Shape.tame p = true -> In kv kvs -> Shape.tame (snd kv) = true.
Proof.
  destruct p as [| |b|nonzero text|s|l|entries0]; simpl; intros H Ht Hin; try discriminate;
    injection H as <-; try contradiction.
  - pose proof (chars_scalar s (snd kv) (number_from_In _ 0 _ Hin)) as Hs.
    destruct (snd kv); simpl in *; try reflexivity; discriminate.
  - rewrite forallb_forall in Ht. apply Ht. apply (number_from_In _ 0). exact Hin.
  - apply (tame_entry entries0 kv); [exact Ht|].
    apply (Permutation_in _ (own_entries_perm entries0)). exact Hin.
Qed.

(** Runs the first step of a sequence whose outcome is known. *)
Ltac run_bind :=
  match goal with
  | |- context [bind (Ok ?x) ?k] => change (bind (Ok x) k) with (k x); cbv beta
  end.

Lemma plain_any_fuel (n : nat) (doc v : JValue) :
  plain v = true -> schemaToTS (S n) v doc = Ok "any".
Proof.
  intros H.
  apply (schemaToTS_more_fuel doc 1 (S n) ltac:(lia) v _ (plain_any doc v H)).
  discriminate.
Qed.

Lemma includes_required_ok (declared : JValue) (key : string) :
  Shape.required_ok declared = true ->
  exists isRequired, includes (or_else declared (JArr [])) key = Ok isRequired.
Proof.
  unfold or_else. destruct declared as [| |b|nonzero text|s|l|kvs]; simpl; intros H;
    try (eexists; reflexivity).
  - destruct b; [discriminate | eexists; reflexivity].
  - destruct nonzero; [discriminate | eexists; reflexivity].
  - destruct (String.eqb s EmptyString); eexists; reflexivity.
  - discriminate.
Qed.

Lemma tame_synthesis (doc : JValue) (n : nat) :
  forall v, jsize v <= n -> Shape.tame v = true ->
            exists type, schemaToTS (S n) v doc = Ok type.
Proof.
  induction n as [|n IH]; intros v Hsize Htame.
  - pose proof (jsize_pos v). lia.
  - destruct (plain v) eqn:Hplain;
      [exists "any"; apply plain_any_fuel; exact Hplain|].
    destruct v as [| | | | | |kvs]; try discriminate.
    assert (Hsub : forall x, x = JUndefined \/ jsize x < jsize (JObj kvs) ->
                             Shape.tame x = true ->
                             exists type, schemaToTS (S n) x doc = Ok type).
    { intros x [->|Hx] Hxt.
      - exists "any". reflexivity.
      - apply IH; [lia | exact Hxt]. }
    pose proof Htame as Hparts. simpl in Hparts.
    apply andb_true_iff in Hparts as [Hparts _].
    apply andb_true_iff in Hparts as [Href Hreq].
    apply negb_true_iff in Href.
    rewrite schemaToTS_S. unfold synthesize_with.
    change (negb (truthy (JObj kvs))) with false. cbv iota.
    change (getProp (JObj kvs) "$ref") with (Ok (own kvs "$ref")).
    change (bind (Ok (own kvs "$ref")) ?k) with (k (own kvs "$ref")). cbv beta.
    rewrite Href.
    change (getProp (JObj kvs) "type") with (Ok (own kvs "type")).
    change (bind (Ok (own kvs "type")) ?k) with (k (own kvs "type")). cbv beta.
    destruct (is_str (own kvs "type") "string"); [eexists; reflexivity|].
    destruct (is_str (own kvs "type") "integer" || is_str (own kvs "type") "number");
      [eexists; reflexivity|].
    destruct (is_str (own kvs "type") "boolean"); [eexists; reflexivity|].
    destruct (is_str (own kvs "type") "array").
    { change (getProp (JObj kvs) "items") with (Ok (own kvs "items")).
      destruct (Hsub (own kvs "items") (own_size kvs "items") (tame_own kvs "items" Htame))
        as [elem Helem].
      run_bind. rewrite Helem. run_bind. eexists. reflexivity. }
    destruct (is_str (own kvs "type") "object"); [|eexists; reflexivity].
    change (getProp (JObj kvs) "properties") with (Ok (own kvs "properties")).
    change (bind (Ok (own kvs "properties")) ?k) with (k (own kvs "properties")).
    cbv beta.
    destruct (truthy (own kvs "properties")) eqn:Hp; [|eexists; reflexivity].
    change (negb true) with false. cbv iota.
    change (getProp (JObj kvs) "required") with (Ok (own kvs "required")).
    change (bind (Ok (own kvs "required")) ?k) with (k (own kvs "required")).
    cbv beta zeta.
    destruct (entries (own kvs "properties")) as [kvs'| |] eqn:Hentries.
    + destruct (mapM_all_Ok
                  (fun kv =>
                     isRequired <- includes (or_else (own kvs "required") (JArr []))
                                     (fst kv) ;;
                     type <- schemaToTS (S n) (snd kv) doc ;;
                     Ok (member (fst kv) isRequired type)) kvs') as [props Hprops].
      { intros kv Hkv.
        destruct (includes_required_ok (own kvs "required") (fst kv) Hreq)
          as [isRequired ->].
        assert (Hkvt : Shape.tame (snd kv) = true)
          by (apply (tame_entries _ _ _ Hentries (tame_own kvs "properties" Htame) Hkv)).
        assert (Hx : exists type, schemaToTS (S n) (snd kv) doc = Ok type).
        { destruct (entries_child _ _ _ Hentries Hkv) as [Hs|[Hlt _]].
          - exists "any". apply plain_any_fuel, scalar_plain, Hs.
          - destruct (own_size kvs "properties") as [Hnone|Hlt'].
            + rewrite Hnone in Hp. discriminate.
            + apply IH; [lia | exact Hkvt]. }
        destruct Hx as [type Htype]. run_bind. rewrite Htype. run_bind.
        eexists. reflexivity. }
      run_bind. rewrite Hprops. run_bind. eexists. reflexivity.
    + destruct (own kvs "properties"); discriminate.
    + destruct (own kvs "properties"); discriminate.
Qed.

(** X3.  On a schema tree without references whose [required] fields are
    lists, strings or not given, synthesis returns a type, whatever the
    document: it does not throw, and it nests its calls no deeper than the
    size of the schema. *)
Theorem tame_schema_has_a_type (fuel : nat) (schema doc : JValue) :
  Shape.tame schema = true -> jsize schema < fuel ->
  exists type, schemaToTS fuel schema doc = Ok type.
Proof.
  intros Htame Hfuel. destruct fuel as [|n]; [lia|].
  apply tame_synthesis; [lia | exact Htame].
Qed.

Lemma tame_schema_has_a_type_witness :
  exists type,
    schemaToTS 12
      (JObj [("type", JStr "object");
             ("properties",
               JObj [("id", Sample.of_type "integer");
                     ("tags", JObj [("type", JStr "array");
                                    ("items", Sample.of_type "string")])]);
             ("required", JArr [JStr "id"])]) JNull
    = Ok type.
Proof.
  apply tame_schema_has_a_type; [reflexivity | vm_compute; lia].
Defined.

(** X4.  When [required] of an object schema is given as something that
    is neither a list nor a string (such as [required: true]) and the
    property map has at least one entry, synthesis throws a [TypeError]:
    the value has no [includes] method. *)
Theorem required_flag_throws (n : nat) (schema doc ref properties required : JValue)
  (kv : string * JValue) (kvs : list (string * JValue)) :
  getProp schema "$ref" = Ok ref -> truthy ref = false ->
  getProp schema "type" = Ok (JStr "object") ->
  getProp schema "properties" = Ok properties -> truthy properties = true ->
  entries properties = Ok (kv :: kvs) ->
  getProp schema "required" = Ok required -> truthy required = true ->
  Shape.required_ok required = false ->
  schemaToTS (S n) schema doc = Throw TypeError.
Proof.
  intros Href Hfalsy Htype Hprops Htruthy Hentries Hreq Hrt Hbad.
  rewrite (schemaToTS_object n schema doc ref properties required
             Href Hfalsy Htype Hprops Hreq).
  rewrite Htruthy, Hentries. unfold or_else. rewrite Hrt.
  destruct required; simpl in *; try discriminate; reflexivity.
Qed.

Lemma required_flag_throws_witness :
  schemaToTS 1
    (JObj [("type", JStr "object"); ("required", JBool true);
           ("properties", JObj [("id", Sample.of_type "integer")])]) JNull
  = Throw TypeError.
Proof.
  apply (required_flag_throws 0 _ JNull JUndefined
           (JObj [("id", Sample.of_type "integer")]) (JBool true)
           ("id", Sample.of_type "integer") []); reflexivity.
Defined.

(** ** Schemas that are never synthesized *)

Lemma tame_never_throws (doc : JValue) (n : nat) (v : JValue) (e : error) :
  Shape.tame v = true -> schemaToTS n v doc <> Throw e.
Proof.
  intros Htame H.
  destruct (tame_synthesis doc (jsize v) v (le_n _) Htame) as [type Htype].
  pose proof (schemaToTS_more_fuel doc n (Nat.max n (S (jsize v)))
                (Nat.le_max_l _ _) v _ H ltac:(discriminate)) as H1.
  pose proof (schemaToTS_more_fuel doc (S (jsize v)) (Nat.max n (S (jsize v)))
                (Nat.le_max_r _ _) v _ Htype ltac:(discriminate)) as H2.
  cbv beta in H1, H2. congruence.
Qed.

Lemma has_includes_Ok (required : JValue) (key : string) :
  has_includes required = true -> exists b, includes required key = Ok b.
Proof.
  destruct required; simpl; intros H; try discriminate; eexists; reflexivity.
Qed.

(** The loop over the properties runs out of fuel at the first property
    that does, when no earlier one throws. *)
Lemma mapM_runs_out {A B : Type} (f : A -> result B) (earlier later : list A) (a : A) :
  (forall a', In a' earlier -> forall e, f a' <> Throw e) ->
  f a = OutOfFuel ->
  mapM f (earlier ++ a :: later) = OutOfFuel.
Proof.
  intros Hearlier Ha. induction earlier as [|a' earlier IH]; simpl.
  - rewrite Ha. reflexivity.
  - destruct (f a') as [b|e|] eqn:E.
    + simpl. rewrite IH; [reflexivity|].
      intros x Hx. apply Hearlier. right. exact Hx.
    + exfalso. apply (Hearlier a' (or_introl eq_refl) e E).
    + reflexivity.
Qed.

Lemma leads_to_runs_out (doc v x : JValue) (n : nat) :
  Shape.leads_to doc v x -> schemaToTS n x doc = OutOfFuel ->
  schemaToTS (S n) v doc = OutOfFuel.
Proof.
  intros Hleads Hx.
  destruct Hleads as [v target r Href Hne Htarget _
                     | v ref items Href Hfalsy Htype Hitems
                     | v ref properties declared earlier later kv Href Hfalsy Htype
                         Hprops Htruthy Hdeclared Hincl Hentries Hearlier].
  - rewrite (schemaToTS_ref n v doc r Href Hne), Htarget. exact Hx.
  - rewrite schemaToTS_S. unfold synthesize_with.
    rewrite (has_type_truthy _ _ Htype), Href. run_bind. rewrite Hfalsy, Htype.
    run_bind. change (is_str (JStr "array") "string") with false.
    change (is_str (JStr "array") "integer") with false.
    change (is_str (JStr "array") "number") with false.
    change (is_str (JStr "array") "boolean") with false.
    change (is_str (JStr "array") "array") with true.
    cbn [orb]. cbv iota. rewrite Hitems. run_bind. rewrite Hx. reflexivity.
  - rewrite (schemaToTS_object n v doc ref properties declared Href Hfalsy Htype
               Hprops Hdeclared).
    rewrite Htruthy, Hentries. cbn [negb]. cbv iota. run_bind.
    rewrite mapM_runs_out; [reflexivity | |].
    + intros kv' Hkv' e.
      destruct (has_includes_Ok _ (fst kv') Hincl) as [b ->]. run_bind.
      rewrite forallb_forall in Hearlier.
      destruct (schemaToTS n (snd kv') doc) as [t|e'|] eqn:E;
        [discriminate | | discriminate].
      exfalso. apply (tame_never_throws doc n (snd kv') e' (Hearlier kv' Hkv') E).
    + destruct (has_includes_Ok _ (fst kv) Hincl) as [b ->]. run_bind.
      rewrite Hx. reflexivity.
Qed.

(** X19.  A set of schemas in which every schema leads to a schema of the
    set is never synthesized: on each of them [schemaToTS] runs out of
    every amount of fuel, so that it returns no type and throws no
    exception of its own. *)
Theorem closed_set_never_finishes (doc : JValue) (member : JValue -> Prop) :
  (forall v, member v -> exists x, Shape.leads_to doc v x /\ member x) ->
  forall v, member v -> forall fuel, schemaToTS fuel v doc = OutOfFuel.
Proof.
  intros Hclosed v Hv fuel. revert v Hv.
  induction fuel as [|n IH]; intros v Hv; [reflexivity|].
  destruct (Hclosed v Hv) as (x & Hleads & Hx).
  apply (leads_to_runs_out doc v x n Hleads). apply IH, Hx.
Qed.

Lemma closed_set_never_finishes_witness :
  schemaToTS 1000 Sample.node Sample.zoo_doc = OutOfFuel.
Proof.
  refine (closed_set_never_finishes Sample.zoo_doc
            (fun v => v = Sample.node
                      \/ v = Sample.ref_to "#/components/schemas/Node")
            _ Sample.node _ 1000).
  - intros v [->| ->].
    + exists (Sample.ref_to "#/components/schemas/Node"). split; [|right; reflexivity].
      apply (Shape.leads_by_property Sample.zoo_doc Sample.node JUndefined
               (JObj [("value", Sample.of_type "string");
                      ("next", Sample.ref_to "#/components/schemas/Node")])
               JUndefined [("value", Sample.of_type "string")] []
               ("next", Sample.ref_to "#/components/schemas/Node"));
        reflexivity.
    + exists Sample.node. split; [|left; reflexivity].
      apply (Shape.leads_by_reference Sample.zoo_doc _ Sample.node
               "#/components/schemas/Node");
        [reflexivity | discriminate | reflexivity | reflexivity].
  - left. reflexivity.
Defined.

(** ** The reference resolver *)

Lemma split_nonempty (sep : ascii) (s : string) : Str.split sep s <> [].
Proof.
  destruct s as [|c s]; simpl; [discriminate|].
  destruct (Ascii.eqb c sep); [discriminate|].
  destruct (Str.split sep s); discriminate.
Qed.

Lemma split_app (sep : ascii) (a b : string) :
  Str.split sep (a ++ String sep b) = (Str.split sep a ++ Str.split sep b)%list.
Proof.
  induction a as [|c a IH]; simpl.
  - rewrite Ascii.eqb_refl. reflexivity.
  - destruct (Ascii.eqb c sep); [rewrite IH; reflexivity|].
    rewrite IH. pose proof (split_nonempty sep a).
    destruct (Str.split sep a); [contradiction | reflexivity].
Qed.

Lemma ref_parts_pointer (r : string) : ref_parts ("#/" ++ r) = Str.split "/" r.
Proof.
  unfold ref_parts, Str.replace.
  assert (H : Str.split_first "#/" ("#/" ++ r) = Some (EmptyString, r))
    by (destruct r; reflexivity).
  rewrite H. reflexivity.
Qed.

(** X5.  Resolution goes through the document segment by segment: the
    node behind [#/a/b] is the node behind [#/b] in the node behind [#/a],
    and it fails where the first of the two steps fails.  A node found on
    the way is used as it is, also when it is itself a reference. *)
Theorem resolveRef_composes (a b : string) (doc : JValue) :
  resolveRef ("#/" ++ a ++ "/" ++ b) doc
  = (node <- resolveRef ("#/" ++ a) doc ;; resolveRef ("#/" ++ b) node).
Proof.
  unfold resolveRef. rewrite !ref_parts_pointer.
  change (a ++ "/" ++ b) with (a ++ String "/" b).
  rewrite split_app. apply walk_app.
Qed.

(** ** Names *)

Lemma is_word_upper (c : ascii) : Str.is_lower c = true -> Str.is_word (Str.upper c) = true.
Proof.
  destruct c as [b0 b1 b2 b3 b4 b5 b6 b7].
  destruct b0, b1, b2, b3, b4, b5, b6, b7; try discriminate; reflexivity.
Qed.

Lemma upper_not_lower (c : ascii) :
  Str.is_lower c = true ->
  Str.is_lower (Str.upper c) = false /\ Ascii.eqb (Str.upper c) "_" = false.
Proof.
  destruct c as [b0 b1 b2 b3 b4 b5 b6 b7].
  destruct b0, b1, b2, b3, b4, b5, b6, b7; try discriminate; split; reflexivity.
Qed.

Lemma all_word_cons (c : ascii) (s : string) :
  Shape.all_word (String c s) = Str.is_word c && Shape.all_word s.
Proof. reflexivity. Qed.

Lemma all_word_app (a b : string) :
  Shape.all_word (a ++ b) = Shape.all_word a && Shape.all_word b.
Proof.
  induction a as [|c a IH]; [reflexivity|].
  change (String c a ++ b) with (String c (a ++ b)).
  rewrite !all_word_cons, IH, andb_assoc. reflexivity.
Qed.

Lemma replace_nonword_from_word (in_run : bool) (s : string) :
  Shape.all_word (Str.replace_nonword_from in_run s) = true.
Proof.
  revert in_run. induction s as [|c s IH]; intros in_run; simpl; [reflexivity|].
  destruct (Str.is_word c) eqn:Hc.
  - rewrite all_word_cons, Hc. apply IH.
  - destruct in_run; [apply IH|]. rewrite all_word_cons. apply IH.
Qed.

Lemma camel_word (s : string) :
  Shape.all_word s = true -> Shape.all_word (Str.camel s) = true.
Proof.
  enough (H : (Shape.all_word s = true -> Shape.all_word (Str.camel s) = true)
              /\ forall c, Shape.all_word (String c s) = true ->
                           Shape.all_word (Str.camel (String c s)) = true)
    by apply H.
  induction s as [|d s [IH1 IH2]].
  - split; [reflexivity|]. intros c H. exact H.
  - split; [apply IH2|]. intros c H.
    rewrite !all_word_cons in H.
    apply andb_true_iff in H as [Hc H]. apply andb_true_iff in H as [Hd Hs].
    change (Str.camel (String c (String d s)))
      with (if Ascii.eqb c "_" && Str.is_lower d
            then String (Str.upper d) (Str.camel s)
            else String c (Str.camel (String d s))).
    destruct (Ascii.eqb c "_" && Str.is_lower d) eqn:E.
    + apply andb_true_iff in E as [_ Hl].
      rewrite all_word_cons, (is_word_upper d Hl). apply IH1, Hs.
    + rewrite all_word_cons, Hc. apply IH2. rewrite all_word_cons, Hd. exact Hs.
Qed.

(** X6.  For an operation without an [operationId] (absent or falsy) and a
    method made of word characters, the function name and the file name
    are made of letters, digits and underscores only, whatever the route:
    the file name holds no path separator and no dot. *)
Theorem derived_name_is_a_word (route method : string) (operation operationId : JValue) :
  getProp operation "operationId" = Ok operationId ->
  truthy operationId = false ->
  Shape.all_word method = true ->
  exists name,
    functionName route method operation = Ok name
    /\ fileName route method operation = Ok name
    /\ Shape.all_word name = true.
Proof.
  intros Hid Hfalsy Hmethod.
  exists (Str.camel (method ++ Str.replace_nonword route)).
  unfold functionName, fileName. rewrite Hid. simpl. unfold or_else. rewrite Hfalsy.
  repeat split. apply camel_word. rewrite all_word_app, Hmethod.
  apply replace_nonword_from_word.
Qed.

Lemma derived_name_is_a_word_witness :
  exists name,
    functionName "/../users/{id}.json" "get" (JObj [("operationId", JNull)]) = Ok name
    /\ fileName "/../users/{id}.json" "get" (JObj [("operationId", JNull)]) = Ok name
    /\ Shape.all_word name = true.
Proof.
  apply (derived_name_is_a_word _ _ _ JNull); reflexivity.
Defined.

Lemma camel_head (s : string) :
  Spec.starts_lower (Str.camel s) = true -> Spec.starts_lower s = true.
Proof.
  destruct s as [|c [|d s]]; simpl; try (intros H; exact H).
  destruct (Ascii.eqb c "_" && Str.is_lower d) eqn:E.
  - apply andb_true_iff in E as [_ Hd]. simpl.
    rewrite (proj1 (upper_not_lower d Hd)). discriminate.
  - simpl. intros H; exact H.
Qed.

Lemma camel_no_pair (s : string) : Shape.has_pair (Str.camel s) = false.
Proof.
  enough (H : Shape.has_pair (Str.camel s) = false
              /\ forall c, Shape.has_pair (Str.camel (String c s)) = false)
    by apply H.
  induction s as [|d s [IH1 IH2]].
  - split; [reflexivity|]. intros c. simpl. rewrite andb_false_r. reflexivity.
  - split; [apply IH2|]. intros c.
    change (Str.camel (String c (String d s)))
      with (if Ascii.eqb c "_" && Str.is_lower d
            then String (Str.upper d) (Str.camel s)
            else String c (Str.camel (String d s))).
    destruct (Ascii.eqb c "_" && Str.is_lower d) eqn:E.
    + apply andb_true_iff in E as [_ Hd].
      change (Shape.has_pair (String (Str.upper d) (Str.camel s)))
        with (Ascii.eqb (Str.upper d) "_" && Spec.starts_lower (Str.camel s)
              || Shape.has_pair (Str.camel s)).
      rewrite (proj2 (upper_not_lower d Hd)), IH1. reflexivity.
    + change (Shape.has_pair (String c (Str.camel (String d s))))
        with (Ascii.eqb c "_" && Spec.starts_lower (Str.camel (String d s))
              || Shape.has_pair (Str.camel (String d s))).
      rewrite (IH2 d), orb_false_r.
      destruct (Ascii.eqb c "_"); [|reflexivity]. simpl in E.
      destruct (Spec.starts_lower (Str.camel (String d s))) eqn:Hs; [|reflexivity].
      apply camel_head in Hs. simpl in Hs. congruence.
Qed.

Lemma camel_fixed (s : string) : Shape.has_pair s = false -> Str.camel s = s.
Proof.
  enough (H : (Shape.has_pair s = false -> Str.camel s = s)
              /\ forall c, Shape.has_pair (String c s) = false ->
                           Str.camel (String c s) = String c s)
    by apply H.
  induction s as [|d s [IH1 IH2]].
  - split; reflexivity.
  - split; [apply IH2|]. intros c H.
    change (Shape.has_pair (String c (String d s)))
      with (Ascii.eqb c "_" && Str.is_lower d || Shape.has_pair (String d s)) in H.
    apply orb_false_iff in H as [E H].
    change (Str.camel (String c (String d s)))
      with (if Ascii.eqb c "_" && Str.is_lower d
            then String (Str.upper d) (Str.camel s)
            else String c (Str.camel (String d s))).
    rewrite E, (IH2 d H). reflexivity.
Qed.

(** X7.  In a generated name no underscore is followed by a lower-case
    letter, and folding a name again changes nothing: a name the script
    has produced, used as [operationId], gives itself. *)
Theorem generated_name_is_folded (route method : string) (operation : JValue)
  (name : string) :
  functionName route method operation = Ok name ->
  Shape.has_pair name = false
  /\ Str.camel name = name
  /\ forall route' method',
       functionName route' method' (JObj [("operationId", JStr name)])
       = Ok (if nonempty name then name else Str.camel (method' ++ Str.replace_nonword route')).
Proof.
  intros H. unfold functionName in H. unbind H as operationId Hid.
  cbv zeta in H. unfold camelCase in H.
  destruct (or_else operationId _) as [| | | |s| |]; try discriminate H.
  injection H as <-.
  pose proof (camel_no_pair s) as Hpair.
  split; [exact Hpair|]. split; [apply camel_fixed, Hpair|].
  intros route' method'. unfold functionName. simpl. unfold or_else, nonempty. simpl.
  destruct (negb (String.eqb (Str.camel s) EmptyString)); simpl; [|reflexivity].
  rewrite (camel_fixed _ Hpair). reflexivity.
Qed.

Lemma generated_name_is_folded_witness :
  Shape.has_pair "getUsersIdPets" = false
  /\ Str.camel "getUsersIdPets" = "getUsersIdPets"
  /\ forall route' method',
       functionName route' method' (JObj [("operationId", JStr "getUsersIdPets")])
       = Ok (if nonempty "getUsersIdPets" then "getUsersIdPets"
             else Str.camel (method' ++ Str.replace_nonword route')).
Proof.
  apply (generated_name_is_folded "/users/{id}/pets" "get" (JObj [])).
  reflexivity.
Defined.

Lemma replace_nonword_from_run (in_run : bool) (run rest : string) :
  run <> EmptyString -> Spec.all_nonword run = true ->
  Str.replace_nonword_from in_run (run ++ rest)
  = (if in_run then EmptyString else "_") ++ Str.replace_nonword_from true rest.
Proof.
  revert in_run. induction run as [|c run IH]; intros in_run Hne Hrun;
    [contradiction|].
  simpl in Hrun. apply andb_true_iff in Hrun as [Hc Hrun].
  apply negb_true_iff in Hc. simpl. rewrite Hc.
  destruct run as [|d run].
  - destruct in_run; reflexivity.
  - destruct in_run; rewrite (IH true) by (discriminate || exact Hrun); reflexivity.
Qed.

Lemma replace_nonword_from_runs (in_run : bool) (before run run' after : string) :
  run <> EmptyString -> Spec.all_nonword run = true ->
  run' <> EmptyString -> Spec.all_nonword run' = true ->
  Str.replace_nonword_from in_run (before ++ run ++ after)
  = Str.replace_nonword_from in_run (before ++ run' ++ after).
Proof.
  intros Hne Hrun Hne' Hrun'. revert in_run.
  induction before as [|c before IH]; intros in_run; simpl.
  - rewrite !replace_nonword_from_run by assumption. reflexivity.
  - destruct (Str.is_word c); [rewrite IH; reflexivity|].
    destruct in_run; rewrite IH; reflexivity.
Qed.

(** X8.  Names collide.  With a non-empty [operationId] the name does not
    depend on the route or the method, so two operations with the same
    [operationId] get the same file.  Without one, two routes that differ
    only in which non-word characters separate their word characters (such
    as [/a-b] and [/a/{b}]) get the same name under the same method. *)
Theorem names_collide (before run run' after method : string)
  (operation operationId : JValue) :
  getProp operation "operationId" = Ok operationId ->
  run <> EmptyString -> Spec.all_nonword run = true ->
  run' <> EmptyString -> Spec.all_nonword run' = true ->
  fileName (before ++ run ++ after) method operation
  = fileName (before ++ run' ++ after) method operation
  /\ (truthy operationId = true ->
      forall route route' method',
        fileName route method operation = fileName route' method' operation).
Proof.
  intros Hid Hne Hrun Hne' Hrun'. unfold fileName. rewrite Hid. simpl.
  unfold Str.replace_nonword.
  rewrite (replace_nonword_from_runs false before run run' after Hne Hrun Hne' Hrun').
  split; [reflexivity|].
  intros Ht route route' method'. unfold or_else. rewrite Ht. reflexivity.
Qed.

Lemma names_collide_witness :
  fileName ("/a" ++ "-" ++ "b}") "get" (JObj [])
  = fileName ("/a" ++ "/{" ++ "b}") "get" (JObj [])
  /\ (truthy JUndefined = true ->
      forall route route' method',
        fileName route "get" (JObj []) = fileName route' method' (JObj [])).
Proof.
  apply (names_collide "/a" "-" "/{" "b}" "get" (JObj []) JUndefined);
    try reflexivity; discriminate.
Defined.
(** ** Operations *)

Lemma getProp_defined (v : JValue) (k : string) :
  Shape.nullish v = false -> exists x, getProp v k = Ok x.
Proof.
  destruct v; simpl; intros H; try discriminate; try (eexists; reflexivity).
  - destruct (array_index k); [destruct (String.get _ _)|destruct (String.eqb _ _)];
      eexists; reflexivity.
  - destruct (array_index k); [|destruct (String.eqb _ _)]; eexists; reflexivity.
Qed.

(** A property read throws on [undefined] and [null] only, and then a
    [TypeError]. *)
Lemma getProp_outcome (v : JValue) (k : string) :
  (exists x, getProp v k = Ok x) \/ getProp v k = Throw TypeError.
Proof.
  destruct (Shape.nullish v) eqn:E.
  - right. apply getProp_nullish, E.
  - left. apply getProp_defined, E.
Qed.

Lemma filter_in_total (location : string) (parameters : list JValue) :
  (forall p, In p parameters -> Shape.nullish p = false) ->
  filter_in location parameters = Ok (filter (Spec.located location) parameters).
Proof.
  induction parameters as [|p rest IH]; intros H; simpl; [reflexivity|].
  destruct (getProp_defined p "in" (H p (or_introl eq_refl))) as [place Hplace].
  rewrite Hplace. simpl. rewrite IH by (intros q Hq; apply H; right; exact Hq).
  simpl. unfold Spec.located. rewrite (getPropOpt_Ok _ _ _ Hplace). reflexivity.
Qed.

Lemma filter_in_nullish (location : string) (parameters : list JValue) (p : JValue) :
  In p parameters -> Shape.nullish p = true ->
  filter_in location parameters = Throw TypeError.
Proof.
  induction parameters as [|q rest IH]; intros Hin Hp; [contradiction|]. simpl.
  destruct Hin as [->|Hin].
  - rewrite (getProp_nullish p "in" Hp). reflexivity.
  - destruct (getProp_outcome q "in") as [[place ->]| ->]; simpl.
    + rewrite (IH Hin Hp). reflexivity.
    + reflexivity.
Qed.

Lemma filter_wired (location : string) (parameters : list JValue) :
  location = "path" \/ location = "query" ->
  filter (Spec.located location) (filter Shape.wired parameters)
  = filter (Spec.located location) parameters.
Proof.
  intros Hloc. induction parameters as [|p rest IH]; [reflexivity|]. simpl.
  destruct (Shape.wired p) eqn:Hw; simpl; rewrite IH; [reflexivity|].
  unfold Shape.wired in Hw. apply orb_false_iff in Hw as [Hpath Hquery].
  destruct Hloc as [->| ->]; [rewrite Hpath | rewrite Hquery]; reflexivity.
Qed.

(** X9.  Parameters that are neither path nor query parameters (header and
    cookie parameters, and parameters given by reference) leave no trace:
    an operation has the unit of the operation without them, that is, of
    any operation that lists the path and query parameters only and reads
    the same under every other key. *)
Theorem unwired_parameters_leave_no_trace (doc : JValue) (fuel : nat)
  (route method : string) (operation operation' : JValue)
  (parameters : list JValue) :
  (forall k, k <> "parameters" -> getProp operation k = getProp operation' k) ->
  getProp operation "parameters" = Ok (JArr parameters) ->
  getProp operation' "parameters" = Ok (JArr (filter Shape.wired parameters)) ->
  (forall p, In p parameters -> Shape.nullish p = false) ->
  generateFunction doc fuel route method operation
  = generateFunction doc fuel route method operation'.
Proof.
  intros Hsame Hparams Hparams' Hdefined.
  assert (Hdefined' : forall p, In p (filter Shape.wired parameters) ->
                                Shape.nullish p = false).
  { intros p Hp. apply filter_In in Hp as [Hp _]. apply Hdefined, Hp. }
  assert (Hname : functionName route method operation
                  = functionName route method operation').
  { unfold functionName. rewrite (Hsame "operationId") by discriminate.
    reflexivity. }
  unfold generateFunction. rewrite Hname.
  destruct (functionName route method operation') as [name| |]; try reflexivity.
  repeat run_bind.
  unfold parameters_of, responseSchema_of. rewrite Hparams, Hparams'.
  repeat run_bind.
  change (as_array (or_else (JArr parameters) (JArr []))) with (Ok parameters).
  change (as_array (or_else (JArr (filter Shape.wired parameters)) (JArr [])))
    with (Ok (filter Shape.wired parameters)).
  repeat run_bind.
  rewrite !(filter_in_total _ _ Hdefined), !(filter_in_total _ _ Hdefined').
  repeat run_bind.
  rewrite !filter_wired by auto.
  rewrite (Hsame "requestBody"), (Hsame "responses"), (Hsame "summary"),
    (Hsame "description") by discriminate.
  reflexivity.
Qed.

Lemma unwired_parameters_leave_no_trace_witness :
  generateFunction Sample.pets_doc 6 "/pets/{petId}" "get"
    (JObj [("summary", JStr "Find a pet");
           ("parameters",
             JArr [Sample.path_param "petId" "integer";
                   JObj [("name", JStr "X-Trace"); ("in", JStr "header");
                         ("schema", Sample.of_type "string")];
                   Sample.ref_to "#/components/parameters/Limit"]);
           ("operationId", JStr "find_pet")])
  = generateFunction Sample.pets_doc 6 "/pets/{petId}" "get"
      (JObj [("operationId", JStr "find_pet");
             ("summary", JStr "Find a pet");
             ("parameters", JArr [Sample.path_param "petId" "integer"])]).
Proof.
  apply (unwired_parameters_leave_no_trace Sample.pets_doc 6 "/pets/{petId}" "get"
           _ _
           [Sample.path_param "petId" "integer";
            JObj [("name", JStr "X-Trace"); ("in", JStr "header");
                  ("schema", Sample.of_type "string")];
            Sample.ref_to "#/components/parameters/Limit"]).
  - intros k Hk. cbn [getProp own].
    destruct (String.eqb_spec "parameters" k) as [E|_]; [congruence|].
    destruct (String.eqb_spec "summary" k) as [<-|_]; [reflexivity|].
    destruct (String.eqb "operationId" k); reflexivity.
  - reflexivity.
  - reflexivity.
  - intros p [<-|[<-|[<-|[]]]]; reflexivity.
Defined.

Lemma functionName_outcome (route method : string) (operation : JValue) :
  (exists name, functionName route method operation = Ok name)
  \/ functionName route method operation = Throw TypeError.
Proof.
  unfold functionName.
  destruct (getProp_outcome operation "operationId") as [[id ->]| ->]; simpl.
  - destruct (or_else id _); simpl; try (right; reflexivity).
    left. eexists. reflexivity.
  - right. reflexivity.
Qed.

(** X10.  Shapes of an operation on which the generator throws instead of
    writing a unit: an [operationId] that is truthy and not a string, a
    [parameters] value that is truthy and not a list, a [null] entry in
    the parameter list (each a [TypeError]), and a request body without
    [content]. *)
Theorem malformed_operation_yields_no_unit (doc : JValue) (fuel : nat)
  (route method : string) (operation : JValue) :
  (forall id,
      getProp operation "operationId" = Ok id -> truthy id = true ->
      (forall s, id <> JStr s) ->
      generateFunction doc fuel route method operation = Throw TypeError)
  /\ (forall declared,
         getProp operation "parameters" = Ok declared -> truthy declared = true ->
         (forall l, declared <> JArr l) ->
         generateFunction doc fuel route method operation = Throw TypeError)
  /\ (forall l p,
         getProp operation "parameters" = Ok (JArr l) ->
         In p l -> Shape.nullish p = true ->
         generateFunction doc fuel route method operation = Throw TypeError)
  /\ (forall requestBody content,
         getProp operation "requestBody" = Ok requestBody ->
         truthy requestBody = true ->
         getProp requestBody "content" = Ok content -> Shape.nullish content = true ->
         forall text, generateFunction doc fuel route method operation <> Ok text).
Proof.
  split; [|split; [|split]].
  - intros id Hid Ht Hne. unfold generateFunction, functionName.
    rewrite Hid. run_bind. cbv zeta. unfold or_else. rewrite Ht.
    destruct id; try reflexivity. exfalso. apply (Hne s eq_refl).
  - intros declared Hdecl Ht Hne. unfold generateFunction.
    destruct (functionName_outcome route method operation) as [[name ->]| ->];
      [|reflexivity].
    run_bind. unfold parameters_of. rewrite Hdecl. run_bind.
    unfold or_else. rewrite Ht.
    destruct declared; try reflexivity. exfalso. apply (Hne elems eq_refl).
  - intros l p Hdecl Hin Hp. unfold generateFunction.
    destruct (functionName_outcome route method operation) as [[name ->]| ->];
      [|reflexivity].
    run_bind. unfold parameters_of. rewrite Hdecl. run_bind.
    change (as_array (or_else (JArr l) (JArr []))) with (Ok l). run_bind.
    rewrite (filter_in_nullish "path" l p Hin Hp). reflexivity.
  - intros requestBody content Hbody Ht Hcontent Hnull text H.
    apply generateFunction_Ok in H
      as (name & parameters & requestBody' & responses & pathTypes & queryTypes
          & bodyType & responseType & signature & url & summary & description & H).
    cbv zeta in H.
    destruct H as (_ & _ & Hbody' & _ & _ & _ & HbodyT & _).
    rewrite Hbody in Hbody'. injection Hbody' as <-.
    unfold requestBodyType_of in HbodyT. rewrite Ht, Hcontent in HbodyT.
    simpl in HbodyT. rewrite (getProp_nullish content _ Hnull) in HbodyT.
    discriminate.
Qed.

Lemma malformed_operation_yields_no_unit_witness :
  generateFunction JNull 1 "/pets" "get" (JObj [("operationId", int 7)])
  = Throw TypeError
  /\ generateFunction JNull 1 "/pets" "get"
       (JObj [("parameters", JObj [("name", JStr "id")])]) = Throw TypeError
  /\ generateFunction JNull 1 "/pets" "get" (JObj [("parameters", JArr [JNull])])
     = Throw TypeError
  /\ forall text,
       generateFunction JNull 1 "/pets" "post"
         (JObj [("requestBody", JObj [("required", JBool true)])]) <> Ok text.
Proof.
  split; [|split; [|split]].
  - apply (proj1 (malformed_operation_yields_no_unit JNull 1 "/pets" "get"
                    (JObj [("operationId", int 7)])) (int 7));
      [reflexivity | reflexivity | discriminate].
  - apply (proj1 (proj2 (malformed_operation_yields_no_unit JNull 1 "/pets" "get"
                           (JObj [("parameters", JObj [("name", JStr "id")])])))
             (JObj [("name", JStr "id")]));
      [reflexivity | reflexivity | discriminate].
  - apply (proj1 (proj2 (proj2 (malformed_operation_yields_no_unit JNull 1 "/pets" "get"
                                  (JObj [("parameters", JArr [JNull])]))))
             [JNull] JNull); [reflexivity | left; reflexivity | reflexivity].
  - apply (proj2 (proj2 (proj2 (malformed_operation_yields_no_unit JNull 1 "/pets" "post"
                                  (JObj [("requestBody",
                                           JObj [("required", JBool true)])]))))
             (JObj [("required", JBool true)]) JUndefined); reflexivity.
Defined.

(** ** The driver *)

Lemma emit_Ok (doc : JValue) (fuel : nat) (route method : string) (op : JValue)
  (file : string * string) :
  emit doc fuel route method op = Ok file
  <-> written_for doc fuel (route, method, op) file.
Proof.
  unfold emit, written_for. split.
  - intros H. unbind H as code Hcode. unbind H as name Hname. injection H as <-.
    exists name. repeat split; assumption.
  - intros (name & Hname & Hfile & Hcode). destruct file as [f c]. simpl in *.
    rewrite Hcode, Hname. simpl. subst f. reflexivity.
Qed.

Section Driver.

Variable doc : JValue.
Variable fuel : nat.
Variable accepts : list (string * string) -> string * string -> bool.

Lemma accepted_app (done w1 w2 : list (string * string)) :
  accepted accepts done (app w1 w2)
  = accepted accepts done w1 && accepted accepts (app done w1) w2.
Proof.
  revert done. induction w1 as [|file w1 IH]; intros done; simpl.
  - rewrite app_nil_r. reflexivity.
  - rewrite IH, <- app_assoc, andb_assoc. reflexivity.
Qed.

Lemma emit_methods_Ok (done : list (string * string)) (route : string)
  (methods : list (string * JValue)) (written : list (string * string)) :
  emit_methods doc fuel accepts done route methods = (written, Ok tt)
  <-> Forall2 (written_for doc fuel)
        (map (fun mo => (route, fst mo, snd mo)) methods) written
      /\ accepted accepts done written = true.
Proof.
  revert done written.
  induction methods as [|[method op] rest IH]; intros done written; simpl.
  - split.
    + intros H. injection H as <-. split; [constructor | reflexivity].
    + intros [H _]. inversion H. reflexivity.
  - destruct (emit doc fuel route method op) as [file| |] eqn:Hfile.
    + destruct (accepts done file) eqn:Hacc.
      * destruct (emit_methods doc fuel accepts (app done [file]) route rest)
          as [written' outcome] eqn:Hrest.
        split.
        -- intros H. injection H as <- ->.
           apply IH in Hrest as [Hall Hok]. simpl. rewrite Hacc, Hok.
           split; [|reflexivity].
           constructor; [apply emit_Ok; exact Hfile | exact Hall].
        -- intros [H Hok]. inversion H as [|x file' l written'' Hx Hl]; subst.
           apply emit_Ok in Hx. rewrite Hfile in Hx. injection Hx as <-.
           simpl in Hok. rewrite Hacc in Hok.
           assert (E : (written', outcome) = (written'', Ok tt))
             by (rewrite <- Hrest; apply IH; split; assumption).
           injection E as <- <-. reflexivity.
      * split; [discriminate|].
        intros [H Hok]. inversion H as [|x file' l written'' Hx Hl]; subst.
        apply emit_Ok in Hx. rewrite Hfile in Hx. injection Hx as <-.
        simpl in Hok. rewrite Hacc in Hok. discriminate.
    + split; [discriminate|].
      intros [H _]. inversion H as [|x file' l w Hx Hl]; subst.
      apply emit_Ok in Hx. congruence.
    + split; [discriminate|].
      intros [H _]. inversion H as [|x file' l w Hx Hl]; subst.
      apply emit_Ok in Hx. congruence.
Qed.

Lemma emit_routes_Ok (done : list (string * string))
  (paths : list (string * JValue)) (written : list (string * string)) :
  emit_routes doc fuel accepts done paths = (written, Ok tt)
  <-> (exists operations,
          Shape.operations_of paths = Ok operations
          /\ Forall2 (written_for doc fuel) operations written)
      /\ accepted accepts done written = true.
Proof.
  revert done written.
  induction paths as [|[route methods] rest IH]; intros done written; simpl.
  - split.
    + intros H. injection H as <-.
      split; [exists []; split; [reflexivity | constructor] | reflexivity].
    + intros [(ops & Hops & H) _]. injection Hops as <-. inversion H. reflexivity.
  - destruct (entries methods) as [ms| |] eqn:Hms; simpl.
    + destruct (emit_methods doc fuel accepts done route ms) as [w1 o1] eqn:H1.
      split.
      * intros H. destruct o1 as [[]| |]; try discriminate H.
        destruct (emit_routes doc fuel accepts (app done w1) rest)
          as [w2 o2] eqn:H2.
        injection H as <- ->.
        apply emit_methods_Ok in H1 as [Hall1 Hok1].
        apply IH in H2 as [(ops & Hops & Hall2) Hok2].
        rewrite accepted_app, Hok1, Hok2. split; [|reflexivity].
        rewrite Hops. simpl. eexists. split; [reflexivity|].
        apply Forall2_app; assumption.
      * intros [(ops & Hops & Hall) Hok].
        unbind Hops as others Hothers. injection Hops as <-.
        apply Forall2_app_inv_l in Hall as (l1 & l2 & Hl1 & Hl2 & ->).
        rewrite accepted_app in Hok. apply andb_prop in Hok as [Hok1 Hok2].
        assert (E1 : (w1, o1) = (l1, Ok tt)).
        { rewrite <- H1. apply emit_methods_Ok. split; assumption. }
        injection E1 as -> ->.
        assert (E2 : emit_routes doc fuel accepts (app done l1) rest = (l2, Ok tt)).
        { apply IH. split; [exists others; auto | exact Hok2]. }
        rewrite E2. reflexivity.
    + split; [discriminate|]. intros [(ops & Hops & _) _]. discriminate.
    + split; [discriminate|]. intros [(ops & Hops & _) _]. discriminate.
Qed.

Lemma emit_methods_app (done : list (string * string)) (route : string)
  (ms1 ms2 : list (string * JValue)) (w1 : list (string * string)) :
  emit_methods doc fuel accepts done route ms1 = (w1, Ok tt) ->
  emit_methods doc fuel accepts done route (app ms1 ms2)
  = (app w1 (fst (emit_methods doc fuel accepts (app done w1) route ms2)),
     snd (emit_methods doc fuel accepts (app done w1) route ms2)).
Proof.
  revert done w1. induction ms1 as [|[method op] ms1 IH]; intros done w1 H;
    simpl in *.
  - injection H as <-. rewrite app_nil_r.
    destruct (emit_methods doc fuel accepts done route ms2); reflexivity.
  - destruct (emit doc fuel route method op) as [file| |]; try discriminate H.
    destruct (accepts done file); [|discriminate H].
    destruct (emit_methods doc fuel accepts (app done [file]) route ms1)
      as [w o] eqn:E.
    injection H as <- ->. rewrite (IH _ w E).
    rewrite <- app_assoc. reflexivity.
Qed.

Lemma emit_routes_app (done : list (string * string))
  (ps1 ps2 : list (string * JValue)) (w1 : list (string * string)) :
  emit_routes doc fuel accepts done ps1 = (w1, Ok tt) ->
  emit_routes doc fuel accepts done (app ps1 ps2)
  = (app w1 (fst (emit_routes doc fuel accepts (app done w1) ps2)),
     snd (emit_routes doc fuel accepts (app done w1) ps2)).
Proof.
  revert done w1. induction ps1 as [|[route methods] ps1 IH]; intros done w1 H;
    simpl in *.
  - injection H as <-. rewrite app_nil_r.
    destruct (emit_routes doc fuel accepts done ps2); reflexivity.
  - destruct (entries methods) as [ms| |]; try discriminate H.
    destruct (emit_methods doc fuel accepts done route ms) as [w o].
    destruct o as [[]| |]; try discriminate H.
    destruct (emit_routes doc fuel accepts (app done w) ps1) as [w' o'] eqn:E.
    injection H as <- ->. rewrite (IH _ w' E).
    rewrite !app_assoc. reflexivity.
Qed.

End Driver.

(** X11.  The script finishes without an exception exactly when every
    operation of every path can be generated and the file system accepts
    every write, one after the other; then it has written one file per
    operation, in the order in which JavaScript enumerates the paths and
    their methods: the file of an operation is named by its derived name
    with [.ts] and holds its generated unit. *)
Theorem script_writes_one_file_per_operation (doc : JValue) (fuel : nat)
  (accepts : list (string * string) -> string * string -> bool)
  (written : list (string * string)) :
  script doc fuel accepts = (written, Ok tt)
  <-> (exists declared paths operations,
          getProp doc "paths" = Ok declared
          /\ entries (or_else declared (JObj [])) = Ok paths
          /\ Shape.operations_of paths = Ok operations
          /\ Forall2 (written_for doc fuel) operations written)
      /\ accepted accepts [] written = true.
Proof.
  unfold script. split.
  - intros H. destruct (getProp doc "paths") as [declared| |]; try discriminate H.
    destruct (entries _) as [paths| |] eqn:Hpaths; try discriminate H.
    apply emit_routes_Ok in H as [(ops & Hops & Hall) Hok].
    split; [|exact Hok]. exists declared, paths, ops. auto.
  - intros [(declared & paths & ops & -> & -> & Hops & Hall) Hok].
    apply emit_routes_Ok. split; [exists ops; auto | exact Hok].
Qed.

Lemma script_writes_one_file_per_operation_witness :
  (exists declared paths operations,
      getProp Sample2.small_doc "paths" = Ok declared
      /\ entries (or_else declared (JObj [])) = Ok paths
      /\ Shape.operations_of paths = Ok operations
      /\ Forall2 (written_for Sample2.small_doc 3) operations
           [("listPets.ts", Sample2.list_pets_text)])
  /\ accepted Sample2.flat [] [("listPets.ts", Sample2.list_pets_text)] = true.
Proof.
  apply (proj1 (script_writes_one_file_per_operation Sample2.small_doc 3
                  Sample2.flat [("listPets.ts", Sample2.list_pets_text)])).
  vm_compute. reflexivity.
Defined.

(** Every operation of this description can be generated, and a file
    system without the directory [pets] refuses the first file. *)
Example refused_file_name :
  script Sample2.nested_doc 3 Sample2.flat = ([], Throw SystemError)
  /\ map fst (fst (script Sample2.nested_doc 3 Sample2.always))
     = ["pets/list.ts"; "listPets.ts"].
Proof. split; vm_compute; reflexivity. Qed.

(** X12.  An operation that cannot be generated ends the run there: the
    files of the operations before it, in the order of the loops, have
    been written, and nothing is written for it or for any operation after
    it.  This is so for every file system and after any earlier writes. *)
Theorem script_stops_at_first_failure (doc : JValue) (fuel : nat)
  (accepts : list (string * string) -> string * string -> bool)
  (done : list (string * string))
  (before after : list (string * JValue)) (route method : string)
  (methods op : JValue) (ops1 ops2 : list (string * JValue))
  (w1 w2 : list (string * string)) :
  emit_routes doc fuel accepts done before = (w1, Ok tt) ->
  entries methods = Ok (ops1 ++ (method, op) :: ops2)%list ->
  emit_methods doc fuel accepts (app done w1) route ops1 = (w2, Ok tt) ->
  (forall file, emit doc fuel route method op <> Ok file) ->
  exists outcome,
    emit_routes doc fuel accepts done (before ++ (route, methods) :: after)
    = (app w1 w2, outcome)
    /\ forall u, outcome <> Ok u.
Proof.
  intros Hbefore Hentries Hops1 Hfail.
  rewrite (emit_routes_app doc fuel accepts done before _ w1 Hbefore).
  simpl. rewrite Hentries.
  rewrite (emit_methods_app doc fuel accepts _ route ops1 _ w2 Hops1). simpl.
  destruct (emit doc fuel route method op) as [file| |] eqn:E.
  - exfalso. apply (Hfail file). reflexivity.
  - simpl. rewrite app_nil_r. eexists. split; [reflexivity | discriminate].
  - simpl. rewrite app_nil_r. eexists. split; [reflexivity | discriminate].
Qed.

Lemma script_stops_at_first_failure_witness :
  exists outcome,
    emit_routes JNull 3 Sample2.flat []
      ([("/pets", JObj [("get", Sample2.list_pets)])]
       ++ ("/pets/{id}",
            JObj [("get", Sample2.broken); ("delete", Sample2.list_pets)]) :: [])
    = (app [("listPets.ts", Sample2.list_pets_text)] [], outcome)
    /\ forall u, outcome <> Ok u.
Proof.
  apply (script_stops_at_first_failure JNull 3 Sample2.flat []
           [("/pets", JObj [("get", Sample2.list_pets)])] []
           "/pets/{id}" "get"
           (JObj [("get", Sample2.broken); ("delete", Sample2.list_pets)])
           Sample2.broken [] [("delete", Sample2.list_pets)]
           [("listPets.ts", Sample2.list_pets_text)] []).
  - vm_compute. reflexivity.
  - reflexivity.
  - reflexivity.
  - intros file. vm_compute. discriminate.
Defined.

(** X17.  A write that the file system refuses ends the run there as
    well, with the error of the write: the files before it have been
    written, and the operations after it are not generated. *)
Theorem refused_write_ends_the_run (doc : JValue) (fuel : nat)
  (accepts : list (string * string) -> string * string -> bool)
  (done : list (string * string))
  (before after : list (string * JValue)) (route method : string)
  (methods op : JValue) (ops1 ops2 : list (string * JValue))
  (w1 w2 : list (string * string)) (file : string * string) :
  emit_routes doc fuel accepts done before = (w1, Ok tt) ->
  entries methods = Ok (ops1 ++ (method, op) :: ops2)%list ->
  emit_methods doc fuel accepts (app done w1) route ops1 = (w2, Ok tt) ->
  emit doc fuel route method op = Ok file ->
  accepts (app (app done w1) w2) file = false ->
  emit_routes doc fuel accepts done (before ++ (route, methods) :: after)
  = (app w1 w2, Throw SystemError).
Proof.
  intros Hbefore Hentries Hops1 Hfile Hrefused.
  rewrite (emit_routes_app doc fuel accepts done before _ w1 Hbefore).
  simpl. rewrite Hentries.
  rewrite (emit_methods_app doc fuel accepts _ route ops1 _ w2 Hops1). simpl.
  rewrite Hfile, Hrefused. simpl. rewrite app_nil_r. reflexivity.
Qed.

Lemma refused_write_ends_the_run_witness :
  emit_routes JNull 3 Sample2.flat []
    ([("/pets", JObj [("get", Sample2.list_pets)])]
     ++ ("/pets/{id}",
          JObj [("get", Sample2.nested); ("delete", Sample2.list_pets)]) :: [])
  = (app [("listPets.ts", Sample2.list_pets_text)] [], Throw SystemError).
Proof.
  apply (refused_write_ends_the_run JNull 3 Sample2.flat []
           [("/pets", JObj [("get", Sample2.list_pets)])] []
           "/pets/{id}" "get"
           (JObj [("get", Sample2.nested); ("delete", Sample2.list_pets)])
           Sample2.nested [] [("delete", Sample2.list_pets)]
           [("listPets.ts", Sample2.list_pets_text)] []
           (match emit JNull 3 "/pets/{id}" "get" Sample2.nested with
            | Ok file => file
            | _ => (EmptyString, EmptyString)
            end)).
  - vm_compute. reflexivity.
  - reflexivity.
  - reflexivity.
  - vm_compute. reflexivity.
  - vm_compute. reflexivity.
Defined.

(** ** The request address *)

Lemma prefix_empty (s : string) : prefix EmptyString s = true.
Proof. destruct s; reflexivity. Qed.

Lemma prefix_cons (p c : ascii) (pat s : string) :
  prefix (String p pat) (String c s) = Ascii.eqb c p && prefix pat s.
Proof.
  cbn [prefix]. destruct (ascii_dec p c) as [E|E].
  - subst. rewrite Ascii.eqb_refl. reflexivity.
  - rewrite (proj2 (Ascii.eqb_neq c p)) by congruence. reflexivity.
Qed.

Lemma prefix_app_self (pat rest : string) : prefix pat (pat ++ rest) = true.
Proof.
  induction pat as [|p pat IH]; [apply prefix_empty|].
  change (String p pat ++ rest) with (String p (pat ++ rest)).
  rewrite prefix_cons, Ascii.eqb_refl. exact IH.
Qed.

Lemma drop_app (pat rest : string) : Str.drop (String.length pat) (pat ++ rest) = rest.
Proof. induction pat as [|p pat IH]; [reflexivity | exact IH]. Qed.


Lemma split_first_unfold (pat s : string) :
  Str.split_first pat s
  = if prefix pat s then Some (EmptyString, Str.drop (String.length pat) s)
    else match s with
         | EmptyString => None
         | String c s' =>
             match Str.split_first pat s' with
             | Some (before, after) => Some (String c before, after)
             | None => None
             end
         end.
Proof. destruct s; reflexivity. Qed.

(** The first occurrence is where no occurrence begins before it. *)
Lemma split_first_found (pat before after : string) :
  ~ starts_inside pat before (pat ++ after) ->
  Str.split_first pat (before ++ pat ++ after) = Some (before, after).
Proof.
  induction before as [|c before IH]; intros Hfirst.
  - change (EmptyString ++ pat ++ after) with (pat ++ after).
    rewrite split_first_unfold, prefix_app_self, drop_app. reflexivity.
  - change (String c before ++ pat ++ after) with (String c (before ++ pat ++ after)).
    rewrite split_first_unfold.
    destruct (prefix pat (String c (before ++ pat ++ after))) eqn:E.
    + exfalso. apply Hfirst. exists EmptyString, (String c before).
      split; [reflexivity|]. split; [discriminate | exact E].
    + rewrite IH; [reflexivity|].
      intros (b1 & b2 & -> & Hne & Hp). apply Hfirst.
      exists (String c b1), b2. split; [reflexivity|]. split; assumption.
Qed.


Lemma includes_char_cons (ch c : ascii) (s : string) :
  Str.includes (String c s) (String ch EmptyString) = false ->
  Ascii.eqb c ch = false /\ Str.includes s (String ch EmptyString) = false.
Proof.
  unfold Str.includes. rewrite split_first_char_cons.
  destruct (Ascii.eqb c ch); [discriminate|].
  intros H. split; [reflexivity|].
  destruct (Str.split_first (String ch EmptyString) s) as [[x y]|];
    [discriminate | reflexivity].
Qed.

Lemma includes_char_app (ch : ascii) (a b : string) :
  Str.includes (a ++ String ch b) (String ch EmptyString) = true.
Proof.
  unfold Str.includes. induction a as [|c a IH].
  - change (EmptyString ++ String ch b) with (String ch b).
    rewrite split_first_char_cons, Ascii.eqb_refl. reflexivity.
  - change (String c a ++ String ch b) with (String c (a ++ String ch b)).
    rewrite split_first_char_cons. destruct (Ascii.eqb c ch); [reflexivity|].
    destruct (Str.split_first (String ch EmptyString) (a ++ String ch b)) as [[x y]|];
      [reflexivity | discriminate].
Qed.






Lemma name_before_brace (name x y : string) :
  Str.includes name "}" = false -> Str.includes x "}" = false ->
  prefix (name ++ "}") (x ++ String "}" y) = true -> name = x.
Proof.
  revert x. induction name as [|n name IH]; intros x Hname Hx H.
  - destruct x as [|c x]; [reflexivity|].
    apply includes_char_cons in Hx as [Hc _].
    change (String c x ++ String "}" y) with (String c (x ++ String "}" y)) in H.
    change (EmptyString ++ "}") with (String "}" EmptyString) in H.
    rewrite prefix_cons in H. apply andb_true_iff in H as [Hc' _]. congruence.
  - apply includes_char_cons in Hname as [Hn Hname].
    change (String n name ++ "}") with (String n (name ++ "}")) in H.
    destruct x as [|c x].
    + change (EmptyString ++ String "}" y) with (String "}" y) in H.
      rewrite prefix_cons in H. apply andb_true_iff in H as [Hc _].
      apply Ascii.eqb_eq in Hc. subst n. discriminate Hn.
    + apply includes_char_cons in Hx as [_ Hx].
      change (String c x ++ String "}" y) with (String c (x ++ String "}" y)) in H.
      rewrite prefix_cons in H. apply andb_true_iff in H as [Hc H].
      apply Ascii.eqb_eq in Hc. subst c. f_equal. apply (IH x Hname Hx H).
Qed.

Lemma placeholder_not_in_base (name before1 rest : string) :
  Str.includes name "}" = false ->
  name <> "process.env.API_URL" ->
  Str.includes before1 "{" = false ->
  ~ starts_inside ("{" ++ name ++ "}") (API_URL ++ before1) rest.
Proof.
  intros Hname Hne Hb (b1 & b2 & Hsplit & Hb2 & Hp).
  destruct b2 as [|c b2]; [contradiction|].
  change ("{" ++ name ++ "}") with (String "{" (name ++ "}")) in Hp.
  change (String c b2 ++ rest) with (String c (b2 ++ rest)) in Hp.
  rewrite prefix_cons in Hp. apply andb_true_iff in Hp as [Hc Hp].
  apply Ascii.eqb_eq in Hc. subst c.
  unfold API_URL in Hsplit.
  destruct b1 as [|c0 b1]; [discriminate Hsplit|].
  injection Hsplit as _ Hsplit.
  destruct b1 as [|c1 b1].
  - injection Hsplit as <-.
    change (prefix (name ++ "}")
              (("process.env.API_URL" ++ String "}" before1) ++ rest) = true) in Hp.
    rewrite append_assoc in Hp.
    change (String "}" before1 ++ rest) with (String "}" (before1 ++ rest)) in Hp.
    apply Hne.
    apply (name_before_brace name "process.env.API_URL" (before1 ++ rest)
             Hname eq_refl Hp).
  - injection Hsplit as _ Hsplit.
    do 20 (destruct b1 as [|? b1]; [discriminate Hsplit|];
           injection Hsplit as _ Hsplit).
    simpl in Hsplit. subst before1.
    rewrite (includes_char_app "{" b1 b2) in Hb. discriminate.
Qed.

(** X14.  A route whose first brace opens the placeholder of a declared
    path parameter has that placeholder replaced by the interpolation
    marker, after the base address and with the rest of the route as it
    is.  The name of the parameter holds no [$] and no [}], and is not the
    name inside the base address. *)
Theorem first_placeholder_is_substituted (before1 after name : string) (p : JValue) :
  getProp p "name" = Ok (JStr name) ->
  Str.includes name "$" = false -> Str.includes name "}" = false ->
  name <> "process.env.API_URL" ->
  Str.includes before1 "{" = false ->
  url_of (before1 ++ "{" ++ name ++ "}" ++ after) [p]
  = Ok (API_URL ++ before1 ++ "${" ++ name ++ "}" ++ after).
Proof.
  intros Hname Hdollar Hbrace Hne Hbefore. unfold url_of. cbn [substitute_all].
  assert (Hsplit : Str.split_first ("{" ++ name ++ "}")
                     (API_URL ++ before1 ++ "{" ++ name ++ "}" ++ after)
                   = Some (API_URL ++ before1, after)).
  { replace (API_URL ++ before1 ++ "{" ++ name ++ "}" ++ after)
      with ((API_URL ++ before1) ++ ("{" ++ name ++ "}") ++ after)
      by (rewrite !append_assoc; reflexivity).
    apply split_first_found.
    apply placeholder_not_in_base; assumption. }
  rewrite (substitute_first_occurrence _ _ _ name p Hname Hdollar Hsplit).
  run_bind. rewrite !append_assoc. reflexivity.
Qed.

Lemma first_placeholder_is_substituted_witness :
  url_of ("/items/" ++ "{" ++ "id" ++ "}" ++ "/tags") [Sample.path_param "id" "integer"]
  = Ok (API_URL ++ "/items/" ++ "${" ++ "id" ++ "}" ++ "/tags").
Proof.
  apply first_placeholder_is_substituted; try reflexivity. discriminate.
Defined.



